(** * Flystorage: the stream MIME-type resolver and the AWS S3 adapter

    A shallow embedding of
      - packages/stream-mime-type/src/stream-mime-type.ts
        ([concatUint8Arrays], [streamHead], [resolveMimeType]) and
      - the AWS S3 adapter ([AwsS3FileStorage] and [isSupportedAlgo]),
    followed by the properties of the specification that these two
    files decide.

    Conventions.  A JavaScript [string | undefined] is an [option string];
    a [string | false] (the result of [lookup] of mime-types) is an
    [option string] too, [None] standing for [false].  A promise of the
    adapter is fulfilled, rejected or pending ([Promise]); an async
    generator is the run of what it yields ([AsyncGenerator]); the loop
    of [listObjects] takes fuel, one unit for each request.  Array
    lengths and byte counts are [nat], the other numbers are [Z]. *)

From Stdlib.Strings Require Import String Ascii Byte.
From Stdlib Require Import List ZArith Bool Arith Lia DecimalString.
Import ListNotations.

Open Scope string_scope.
Open Scope nat_scope.
Open Scope list_scope.

(** ** JavaScript operators used by both files *)

Module Js.

(** Truthiness of a string: every string but the empty one. *)
Definition truthy (s : string) : bool := negb (s =? "")%string.

(** [a ?? d] *)
Definition nullish {A : Type} (a : option A) (d : A) : A :=
  match a with
  | Some x => x
  | None => d
  end.

(** [a || b] where [a] is a string, [undefined] or [false], and
    [b] may be [undefined]. *)
Definition or_else (a b : option string) : option string :=
  match a with
  | Some x => if truthy x then Some x else b
  | None => b
  end.

(** [a || d] where [d] is a string. *)
Definition or_default (a : option string) (d : string) : string :=
  match a with
  | Some x => if truthy x then x else d
  | None => d
  end.

(** [s.endsWith(t)]: some suffix of [s] is [t]. *)
Fixpoint endsWith (s t : string) : bool :=
  (s =? t)%string ||
  match s with
  | EmptyString => false
  | String _ s' => endsWith s' t
  end.

(** [Date]: a time value, in milliseconds since the epoch. *)
Record Date := { time : Z }.

(** [d.getTime()] *)
Definition getTime (d : Date) : Z := time d.

(** [d.getMilliseconds()]: the milliseconds within the second,
    [msFromTime(t) = t modulo 1000]; time-zone offsets are whole
    minutes, so local time has the same value. *)
Definition getMilliseconds (d : Date) : Z := time d mod 1000.

End Js.

(** ** External libraries

    [file-type], [node:path] and [mime-types] are not part of the
    repository; the code only calls them, so they are an interface. *)

(** An error that a library throws, by its name (the EndOfStreamError
    of the tokenizer of file-type, for one). *)
Record LibraryError := { errorName : string }.

(** How an awaited call of a library completes: with a value, or the
    promise is rejected. *)
Inductive Settled (A : Type) :=
| Value (a : A)
| Raised (e : LibraryError).
Arguments Value {A} a.
Arguments Raised {A} e.

Class MimeLibraries := {
  (** [await fileTypeFromBuffer(head)], and [.mime] of the result when
      there is one; the promise may be rejected *)
  fileTypeFromBuffer : list byte -> Settled (option string);
  (** [parse(filename).ext] *)
  parse_ext : string -> string;
  (** [lookup] of mime-types: a type, or [false] *)
  lookup : string -> option string
}.

(** [String.prototype.toUpperCase] follows the Unicode case mapping,
    which a byte string does not carry: it is a parameter of the
    adapter.  [asciiUpperCase] below is its restriction to ASCII. *)

Class StringBuiltins := {
  toUpperCase : string -> string
}.

(** ** stream-mime-type.ts *)

Module StreamMimeType.

Definition Uint8Array := list byte.

Definition byteLength (a : Uint8Array) : nat := length a.

(** [new Uint8Array(length)]: zero filled. *)
Definition newUint8Array (n : nat) : Uint8Array := repeat x00 n.

(** [target.set(source, offset)].  Out of range JavaScript raises a
    RangeError; [concatUint8Arrays] stays in range
    (see [concat_positions_in_range]). *)
Definition set (target source : Uint8Array) (offset : nat) : Uint8Array :=
  firstn offset target ++ source ++ skipn (offset + length source) target.

Definition concatUint8Arrays (input : list Uint8Array) : Uint8Array :=
  let length := fold_left (fun l a => l + byteLength a) input 0 in
  let output := newUint8Array length in
  fst (fold_left
         (fun '(output, position) i =>
            (set output i position, position + byteLength i))
         input (output, 0)).

(** A readable stream, by what it will emit: its chunks in order, and
    whether ['end'] follows them.  A stream that fails or stalls emits
    no ['end']; [pipe] does not forward a source's ['error'], so for
    the tunnel both look alike. *)
Record Readable := {
  chunks : list Uint8Array;
  ends : bool
}.

(** The bytes a consumer reads from a stream. *)
Definition contents (r : Readable) : list byte := concat (chunks r).

(** A chunk that holds bytes. *)
Definition holdsBytes (chunk : Uint8Array) : bool :=
  negb (byteLength chunk =? 0).

(** What a [PassThrough] emits of the chunks written to it: a chunk of
    length zero is not pushed on ([Readable.push] passes it over). *)
Definition passedThrough (cs : list Uint8Array) : list Uint8Array :=
  filter holdsBytes cs.

(** The default high-water mark of a byte stream, in bytes: 16 KiB (64
    KiB from Node 22 on). *)
Definition highWaterMark : nat := 16 * 1024.

(** The variables of the closure in [streamHead], the promise, and
    what has reached [outputStream]. *)
Record Tee := {
  readBytes : nat;
  buffers : list Uint8Array;
  resolved : bool;
  promise : option Uint8Array;
  written : list Uint8Array;
  ended : bool
}.

Definition initial : Tee :=
  {| readBytes := 0; buffers := []; resolved := false;
     promise := None; written := []; ended := false |}.

(** [resolve([head, outputStream])]: only the first call settles. *)
Definition resolve (head : Uint8Array) (p : option Uint8Array)
  : option Uint8Array :=
  match p with
  | Some v => Some v
  | None => Some head
  end.

(** [tunnel.on('data', ...)], the first listener. *)
Definition collect (size : nat) (chunk : Uint8Array) (st : Tee) : Tee :=
  if resolved st then st
  else
    let readBytes' := readBytes st + byteLength chunk in
    let buffers' := buffers st ++ [chunk] in
    if size <=? readBytes' then
      {| readBytes := readBytes'; buffers := []; resolved := true;
         promise := resolve (concatUint8Arrays buffers') (promise st);
         written := written st; ended := ended st |}
    else
      {| readBytes := readBytes'; buffers := buffers'; resolved := false;
         promise := promise st;
         written := written st; ended := ended st |}.

(** [tunnel.pipe(outputStream)], the second ['data'] listener. *)
Definition forward (chunk : Uint8Array) (st : Tee) : Tee :=
  {| readBytes := readBytes st; buffers := buffers st;
     resolved := resolved st; promise := promise st;
     written := written st ++ [chunk]; ended := ended st |}.

Definition on_data (size : nat) (st : Tee) (chunk : Uint8Array) : Tee :=
  forward chunk (collect size chunk st).

(** [tunnel.once('end', ...)], then [pipe] ends [outputStream]. *)
Definition on_end (st : Tee) : Tee :=
  {| readBytes := readBytes st; buffers := buffers st;
     resolved := resolved st;
     promise := if resolved st then promise st
                else resolve (concatUint8Arrays (buffers st)) (promise st);
     written := written st; ended := true |}.

(** [stream.pipe(tunnel).pipe(outputStream)]: every chunk of the
    source that holds bytes goes through the tunnel's listeners, and
    ['end'] after them when the source ends.  [outputStream] holds what
    is written to it until it is read.  Back-pressure is not part of
    this run: once [outputStream] holds [highWaterMark] bytes that
    nobody reads, [pipe] pauses the tunnel, so the run is that of the
    program for a [size] up to [highWaterMark], where the promise has
    settled by then; the 4100 bytes that [resolveMimeType] asks for are
    below it.  The tunnel itself raises no ['error'] (the listener that
    rejects the promise is for that event), so the promise is never
    rejected. *)
Definition run (stream : Readable) (size : nat) : Tee :=
  let st := fold_left (on_data size) (passedThrough (chunks stream)) initial in
  if ends stream then on_end st else st.

Definition streamHead (stream : Readable) (size : nat)
  : option (Uint8Array * Readable) :=
  let st := run stream size in
  match promise st with
  | Some head => Some (head, {| chunks := written st; ends := ended st |})
  | None => None
  end.

(** The promise of [resolveMimeType]: fulfilled, rejected with the
    error of a library, or pending. *)
Inductive Resolution (A : Type) :=
| Resolved (a : A)
| Failed (e : LibraryError)
| Unsettled.
Arguments Resolved {A} a.
Arguments Failed {A} e.
Arguments Unsettled {A}.

(** The first component of what a promise is fulfilled with. *)
Definition typeOf {A B : Type} (r : Resolution (A * B)) : Resolution A :=
  match r with
  | Resolved (a, _) => Resolved a
  | Failed e => Failed e
  | Unsettled => Unsettled
  end.

Section Resolve.
Context `{MimeLibraries}.

Definition mimeTimeForExt : string -> option string := lookup.

(** Nothing catches what [fileTypeFromBuffer] throws: it rejects the
    promise of [resolveMimeType]. *)
Definition resolveMimeType (filename : string) (stream : Readable)
           (fallback : option string)
  : Resolution (option string * Readable) :=
  match streamHead stream 4100 with
  | None => Unsettled
  | Some (head, readable) =>
      match fileTypeFromBuffer head with
      | Raised e => Failed e
      | Value (Some mime) => Resolved (Some mime, readable)
      | Value None =>
          let ext := parse_ext filename in
          Resolved (Js.or_else (mimeTimeForExt ext) fallback, readable)
      end
  end.
End Resolve.

(** The chunks buffered before the promise settles: the shortest run
    of leading chunks holding [size] bytes, or all of them. *)
Fixpoint headChunks (size seen : nat) (cs : list Uint8Array)
  : list Uint8Array :=
  match cs with
  | [] => []
  | c :: cs' =>
      if size <=? seen + byteLength c then [c]
      else c :: headChunks size (seen + byteLength c) cs'
  end.

(** Some leading run of [cs] brings the count from [seen] to [size]. *)
Fixpoint reaches (size seen : nat) (cs : list Uint8Array) : bool :=
  match cs with
  | [] => false
  | c :: cs' =>
      (size <=? seen + byteLength c) || reaches size (seen + byteLength c) cs'
  end.

(** What has gone through the tunnel to [outputStream] when the source
    has emitted all it emits. *)
Definition replayed (stream : Readable) : Readable :=
  {| chunks := passedThrough (chunks stream); ends := ends stream |}.

(** The head that [resolveMimeType] passes to [fileTypeFromBuffer]
    once [streamHead] has resolved. *)
Definition sniffed (stream : Readable) : Uint8Array :=
  concat (headChunks 4100 0 (passedThrough (chunks stream))).

End StreamMimeType.

(** ** @flystorage/file-storage: what the adapter imports from it

    The package is not among the sources; the adapter uses its types,
    the two [Visibility] constants and the [PathPrefixer], which are
    taken as interfaces. *)

Module FileStorage.

Inductive EntryType := file | directory.

(** A [StatEntry] object literal, field by field; a directory entry
    has no [size], [lastModifiedMs] or [mimeType]. *)
Record StatEntry := {
  type : EntryType;
  isFile : bool;
  isDirectory : bool;
  path : string;
  size : option Z;
  lastModifiedMs : option Z;
  mimeType : option string
}.

(** The enum [Visibility]: two string constants. *)
Class Visibility := {
  PUBLIC : string;
  PRIVATE : string
}.

Class PathPrefixer := {
  prefixFilePath : string -> string;
  prefixDirectoryPath : string -> string;
  stripFilePath : string -> string;
  stripDirectoryPath : string -> string
}.

Record MimeTypeOptions := {
  disallowFallback : option bool;
  fallbackMethod : option string
}.

Record ChecksumOptions := { algo : option string }.

End FileStorage.

(** ** @aws-sdk/client-s3: commands, outputs and the client

    [client.send(command)] is a function of the command: it answers or
    fails with whatever the SDK rejects with. *)

Module AwsSdk.

Inductive BackendError :=
| S3ServiceException (name : string) (httpStatusCode : option Z)
| OtherError (message : string).

Inductive Response (A : Type) :=
| Answer (a : A)
| Failure (e : BackendError).
Arguments Answer {A} a.
Arguments Failure {A} e.

Record HeadObjectCommandInput := {
  head_Bucket : string;
  head_Key : string;
  ChecksumMode : option string
}.

Record HeadObjectOutput := {
  ContentLength : option Z;
  LastModified : option Js.Date;
  ContentType : option string;
  ETag : option string;
  ChecksumSHA1 : option string;
  ChecksumSHA256 : option string;
  ChecksumCRC32 : option string;
  ChecksumCRC32C : option string
}.

Record GetObjectCommandInput := {
  get_Bucket : string;
  get_Key : string
}.

(** [Body] is a Node [Readable], or one of the other stream types of
    the SDK. *)
Inductive StreamingBody :=
| NodeReadable (r : StreamMimeType.Readable)
| OtherBody.

Record GetObjectOutput := { Body : option StreamingBody }.

Record GetObjectAclCommandInput := {
  acl_Bucket : string;
  acl_Key : string
}.

Record Grantee := { URI : option string }.

Record Grant := {
  grantee : option Grantee;
  Permission : option string
}.

Record GetObjectAclOutput := { Grants : option (list Grant) }.

Record ListObjectsV2CommandInput := {
  list_Bucket : string;
  Prefix_ : string;
  Delimiter : option string;
  ContinuationToken : option string;
  MaxKeys : option Z
}.

Record CommonPrefix := { Prefix : option string }.

Record _Object := {
  Key : option string;
  Size : option Z;
  obj_LastModified : option Js.Date
}.

Record ListObjectsV2Output := {
  CommonPrefixes : option (list CommonPrefix);
  Contents : option (list _Object);
  NextContinuationToken : option string;
  IsTruncated : option bool
}.

Record ObjectIdentifier := { id_Key : option string }.

Record DeleteObjectsCommandInput := {
  del_Bucket : string;
  Objects : list ObjectIdentifier
}.

Record S3Client := {
  sendHeadObject : HeadObjectCommandInput -> Response HeadObjectOutput;
  sendGetObject : GetObjectCommandInput -> Response GetObjectOutput;
  sendGetObjectAcl : GetObjectAclCommandInput -> Response GetObjectAclOutput;
  sendListObjectsV2 : ListObjectsV2CommandInput -> Response ListObjectsV2Output;
  sendDeleteObjects : DeleteObjectsCommandInput -> Response unit
}.

End AwsSdk.

(** ** The AWS S3 adapter *)

Module AwsS3FileStorage.
Import FileStorage AwsSdk.

(** What a rejected promise of the adapter carries: an error of the
    client passed on as it is, an [Error] of the adapter's own with
    its message, [ChecksumIsNotAvailable.checksumNotSupported(algo)],
    or an error of a library passed on as it is. *)
Inductive Exception :=
| Backend (e : BackendError)
| Error (message : string)
| ChecksumIsNotAvailable (algo : string)
| Library (e : LibraryError).

(** How a synchronous call completes. *)
Inductive Completion (A : Type) :=
| Returned (a : A)
| Thrown (e : Exception).
Arguments Returned {A} a.
Arguments Thrown {A} e.

(** The three states of a promise. *)
Inductive Promise (A : Type) :=
| Fulfilled (a : A)
| Rejected (e : Exception)
| Pending.
Arguments Fulfilled {A} a.
Arguments Rejected {A} e.
Arguments Pending {A}.

Definition await {A B : Type} (p : Promise A) (k : A -> Promise B)
  : Promise B :=
  match p with
  | Fulfilled a => k a
  | Rejected e => Rejected e
  | Pending => Pending
  end.

(** [await this.client.send(command)] *)
Definition send {A : Type} (r : Response A) : Promise A :=
  match r with
  | Answer a => Fulfilled a
  | Failure e => Rejected (Backend e)
  end.

Notation "x <- p ;; k" := (await p (fun x => k))
  (at level 61, p at next level, right associativity).

(** What an async generator does when it is driven to its end: the
    values it yields, then it returns, throws, or never gets there
    (the loop has used up its [fuel]). *)
Inductive AsyncGenerator (A : Type) :=
| Yield (a : A) (rest : AsyncGenerator A)
| Return
| ThrowG (e : Exception)
| Stuck.
Arguments Yield {A} a rest.
Arguments Return {A}.
Arguments ThrowG {A} e.
Arguments Stuck {A}.

(** [for (const x of xs) yield x], then the rest of the generator. *)
Fixpoint yieldAll {A : Type} (xs : list A) (rest : AsyncGenerator A)
  : AsyncGenerator A :=
  match xs with
  | [] => rest
  | x :: xs' => Yield x (yieldAll xs' rest)
  end.

(** [for await (const x of g) yield f(x)] *)
Fixpoint mapG {A B : Type} (f : A -> B) (g : AsyncGenerator A)
  : AsyncGenerator B :=
  match g with
  | Yield a rest => Yield (f a) (mapG f rest)
  | Return => Return
  | ThrowG e => ThrowG e
  | Stuck => Stuck
  end.

(** Everything a generator yields, in order. *)
Fixpoint yielded {A : Type} (g : AsyncGenerator A) : list A :=
  match g with
  | Yield a rest => a :: yielded rest
  | _ => []
  end.

(** The generator comes to an end (it returns or throws). *)
Fixpoint finishes {A : Type} (g : AsyncGenerator A) : bool :=
  match g with
  | Yield _ rest => finishes rest
  | Return => true
  | ThrowG _ => true
  | Stuck => false
  end.

(** The generator returns. *)
Fixpoint returns {A : Type} (g : AsyncGenerator A) : bool :=
  match g with
  | Yield _ rest => returns rest
  | Return => true
  | _ => false
  end.

Definition possibleChecksumAlgos : list string :=
  ["SHA1"; "SHA256"; "CRC32"; "CRC32C"; "ETAG"].

(** [possibleChecksumAlgos.includes(algo)] *)
Definition isSupportedAlgo (algo : string) : bool :=
  existsb (String.eqb algo) possibleChecksumAlgos.

Record AwsS3FileStorageOptions := {
  bucket : string;
  defaultChecksumAlgo : option string
}.

Record ListOptions := {
  deep : bool;
  includePrefixes : bool;
  includeSelf : bool;
  maxKeys : option Z
}.

Inductive ListItem :=
| prefix (item : CommonPrefix)
| object (item : _Object).

(** [o === s] for [o : string | undefined]. *)
Definition strictEq (o : option string) (s : string) : bool :=
  match o with
  | Some x => (x =? s)%string
  | None => false
  end.

Definition isUndefined {A : Type} (o : option A) : bool :=
  match o with
  | Some _ => false
  | None => true
  end.

(** What the adapter does to the world besides asking the client:
    a delete-batch request it dispatches, a stream it closes. *)
Inductive Effect :=
| Dispatched (command : DeleteObjectsCommandInput)
| Closed (stream : StreamMimeType.Readable).

Section Adapter.
Context (client : S3Client) (options : AwsS3FileStorageOptions).
Context `{PathPrefixer} `{Visibility} `{MimeLibraries} `{StringBuiltins}.

Definition visibility (path : string) : Promise string :=
  response <- send (sendGetObjectAcl client
                      {| acl_Bucket := bucket options;
                         acl_Key := prefixFilePath path |}) ;;
  let publicRead :=
    Js.nullish
      (option_map
         (existsb (fun grant =>
            strictEq (match grantee grant with
                      | Some g => URI g
                      | None => None
                      end)
                     "http://acs.amazonaws.com/groups/global/AllUsers"
            && strictEq (Permission grant) "READ"))
         (Grants response))
      false in
  Fulfilled (if publicRead then PUBLIC else PRIVATE).

(** The loop of [listObjects]; [fuel] bounds the number of requests. *)
Fixpoint listObjects_loop (prefix_ : string) (opts : ListOptions)
         (fuel : nat) (collectedKeys : Z) (shouldContinue : bool)
         (continuationToken : option string)
  : AsyncGenerator ListItem :=
  if shouldContinue &&
     match maxKeys opts with
     | None => true
     | Some m => (collectedKeys <? m)%Z
     end
  then
    match fuel with
    | 0 => Stuck
    | S fuel' =>
        match sendListObjectsV2 client
                {| list_Bucket := bucket options;
                   Prefix_ := prefix_;
                   Delimiter := if deep opts then None else Some "/";
                   ContinuationToken := continuationToken;
                   MaxKeys := maxKeys opts |} with
        | Failure e => ThrowG (Backend e)
        | Answer response =>
            let continuationToken := NextContinuationToken response in
            let shouldContinue := Js.nullish (IsTruncated response) false in
            let prefixes :=
              if includePrefixes opts
              then Js.nullish (CommonPrefixes response) []
              else [] in
            let keptPrefixes :=
              filter (fun item =>
                negb ((negb (includeSelf opts)
                       && strictEq (Prefix item) prefix_)
                      || isUndefined (Prefix item)))
                prefixes in
            let keptObjects :=
              filter (fun item =>
                negb ((negb (includeSelf opts)
                       && strictEq (Key item) prefix_)
                      || isUndefined (Key item)))
                (Js.nullish (Contents response) []) in
            let items := map prefix keptPrefixes ++ map object keptObjects in
            yieldAll items
              (listObjects_loop prefix_ opts fuel'
                 (collectedKeys + Z.of_nat (length items))%Z
                 shouldContinue continuationToken)
        end
    end
  else Return.

Definition listObjects (path : string) (opts : ListOptions) (fuel : nat)
  : AsyncGenerator ListItem :=
  listObjects_loop (prefixDirectoryPath path) opts fuel 0%Z true None.

(** [item.Prefix!] and [item.Key!]: [listObjects] yields no item
    where they are undefined (see [listObjects_names_defined]). *)
Definition assertDefined (o : option string) : string :=
  Js.nullish o EmptyString.

Definition directoryEntry (p : string) : StatEntry :=
  {| type := directory; isFile := false; isDirectory := true;
     path := stripDirectoryPath p;
     size := None; lastModifiedMs := None; mimeType := None |}.

(** The body of the loop of [list]. *)
Definition listEntry (it : ListItem) : StatEntry :=
  match it with
  | prefix item => directoryEntry (assertDefined (Prefix item))
  | object item =>
      let path_ := assertDefined (Key item) in
      if Js.endsWith path_ "/" then directoryEntry path_
      else
        {| type := file; isFile := true; isDirectory := false;
           path := stripFilePath path_;
           size := Some (Js.nullish (Size item) 0%Z);
           lastModifiedMs :=
             option_map Js.getMilliseconds (obj_LastModified item);
           mimeType := None |}
  end.

(** [list] of the adapter (the name [list] is the type of lists). *)
Definition list_ (path : string) (deep_ : bool) (fuel : nat)
  : AsyncGenerator StatEntry :=
  mapG listEntry
    (listObjects path
       {| deep := deep_; includePrefixes := true;
          includeSelf := false; maxKeys := None |} fuel).

Definition read (path : string) : Promise StreamMimeType.Readable :=
  response <- send (sendGetObject client
                      {| get_Bucket := bucket options;
                         get_Key := prefixFilePath path |}) ;;
  match Body response with
  | Some (NodeReadable r) => Fulfilled r
  | _ => Rejected (Error "No response body was provided")
  end.

Definition stat (path_ : string) : Promise StatEntry :=
  response <- send (sendHeadObject client
                      {| head_Bucket := bucket options;
                         head_Key := prefixFilePath path_;
                         ChecksumMode := None |}) ;;
  Fulfilled
    {| path := path_;
       type := file;
       isDirectory := false;
       isFile := true;
       size := Some (Js.nullish (ContentLength response) 0%Z);
       lastModifiedMs := option_map Js.getMilliseconds (LastModified response);
       mimeType := ContentType response |}.

(** [flush(keys)]: the request that is sent. *)
Definition flush (keys : list ObjectIdentifier) : DeleteObjectsCommandInput :=
  {| del_Bucket := bucket options; Objects := keys |}.

(** [item.Key] of what [listObjects] yields ([undefined] for a
    common prefix, which has no such field). *)
Definition itemKey (it : ListItem) : option string :=
  match it with
  | object item => Key item
  | prefix _ => None
  end.

(** [Promise.all] over the dispatched requests.  Which rejection
    wins depends on the order in which the requests settle; the
    first in dispatch order is taken.  A request flushed in the loop has
    no handler until [Promise.all] is reached: when it fails before
    that (while a further page is awaited, or after the listing has
    thrown), the rejection is unhandled and Node ends the process; of
    such a run the outcome given here is not the outcome. *)
Fixpoint all (promises : list DeleteObjectsCommandInput) : Promise unit :=
  match promises with
  | [] => Fulfilled tt
  | command :: rest =>
      _ <- send (sendDeleteObjects client command) ;; all rest
  end.

(** The loop of [deleteDirectory] and what follows it: the requests
    dispatched so far are the promises pushed so far.  When the listing
    throws, the call is rejected with what it throws and [Promise.all]
    is not reached: the promises pushed by then get no handler (see
    [all] for one that fails). *)
Fixpoint deleteDirectory_loop (itemsToDelete : AsyncGenerator ListItem)
         (bucket : list ObjectIdentifier)
         (promises : list DeleteObjectsCommandInput)
  : list DeleteObjectsCommandInput * Promise unit :=
  match itemsToDelete with
  | Yield it rest =>
      let bucket := bucket ++ [{| id_Key := itemKey it |}] in
      if 1000 <? length bucket
      then deleteDirectory_loop rest [] (promises ++ [flush bucket])
      else deleteDirectory_loop rest bucket promises
  | Return =>
      let promises :=
        if 0 <? length bucket then promises ++ [flush bucket]
        else promises in
      (promises, all promises)
  | ThrowG e => (promises, Rejected e)
  | Stuck => (promises, Pending)
  end.

Definition deleteDirectory (path : string) (fuel : nat)
  : list Effect * Promise unit :=
  let itemsToDelete :=
    listObjects path
      {| deep := true; includeSelf := true;
         includePrefixes := false; maxKeys := None |} fuel in
  let '(promises, result) := deleteDirectory_loop itemsToDelete [] [] in
  (map Dispatched promises, result).

Definition visibilityToAcl (visibility : string) : Completion string :=
  if (visibility =? PUBLIC)%string then Returned "public-read"
  else if (visibility =? PRIVATE)%string then Returned "private"
  else Thrown (Error ("Unrecognized visibility provided; " ++ visibility)%string).

(** [e instanceof S3ServiceException && e.$metadata.httpStatusCode === 404] *)
Definition isNotFound (e : BackendError) : bool :=
  match e with
  | S3ServiceException _ (Some code) => (code =? 404)%Z
  | _ => false
  end.

Definition fileExists (path : string) : Promise bool :=
  match sendHeadObject client
          {| head_Bucket := bucket options;
             head_Key := prefixFilePath path;
             ChecksumMode := None |} with
  | Answer _ => Fulfilled true
  | Failure e =>
      if isNotFound e then Fulfilled false else Rejected (Backend e)
  end.

Definition directoryExists (path : string) (fuel : nat) : Promise bool :=
  let listing :=
    listObjects path
      {| deep := true; includePrefixes := true;
         includeSelf := true; maxKeys := Some 1%Z |} fuel in
  match listing with
  | Yield _ _ => Fulfilled true
  | Return => Fulfilled false
  | ThrowG e => Rejected e
  | Stuck => Pending
  end.

(** [response[responseKey]] *)
Definition responseField (response : HeadObjectOutput) (responseKey : string)
  : option string :=
  if (responseKey =? "ETag")%string then ETag response
  else if (responseKey =? "ChecksumSHA1")%string then ChecksumSHA1 response
  else if (responseKey =? "ChecksumSHA256")%string then ChecksumSHA256 response
  else if (responseKey =? "ChecksumCRC32")%string then ChecksumCRC32 response
  else if (responseKey =? "ChecksumCRC32C")%string then ChecksumCRC32C response
  else None.

Definition quote : ascii := "034"%char.

(** The characters [.] does not match (within one byte). *)
Definition lineTerminator (c : ascii) : bool :=
  (c =? "010")%char || (c =? "013")%char.

(** [s] is some [body] matched by [.*] and then the closing quote
    at the end of the input. *)
Fixpoint beforeClosingQuote (s : string) : option string :=
  match s with
  | EmptyString => None
  | String c EmptyString =>
      if (c =? quote)%char then Some EmptyString else None
  | String c rest =>
      if lineTerminator c then None
      else option_map (String c) (beforeClosingQuote rest)
  end.

(** [checksum.replace(re, '$1')] where [re] is: start of input, a
    quote, a group of one or more [.], a quote, end of input. *)
Definition unquote (s : string) : string :=
  match s with
  | String c rest =>
      if (c =? quote)%char then
        match beforeClosingQuote rest with
        | Some body => if Js.truthy body then body else s
        | None => s
        end
      else s
  | EmptyString => s
  end.

Definition checksum (path : string) (opts : ChecksumOptions)
  : Promise string :=
  let algo :=
    toUpperCase
      (Js.or_default (Js.or_else (algo opts) (defaultChecksumAlgo options))
                     "SHA256") in
  if negb (isSupportedAlgo algo) then Rejected (ChecksumIsNotAvailable algo)
  else
    let responseKey :=
      if (algo =? "ETAG")%string then "ETag" else ("Checksum" ++ algo)%string in
    response <- send (sendHeadObject client
                        {| head_Bucket := bucket options;
                           head_Key := prefixFilePath path;
                           ChecksumMode :=
                             if (algo =? "ETAG")%string then None
                             else Some "ENABLED" |}) ;;
    match responseField response responseKey with
    | None =>
        Rejected (Error ("Unable to retrieve checksum with algo " ++ algo)%string)
    | Some checksum => Fulfilled (unquote checksum)
    end.

(** [Readable.from(body)] re-emits the chunks of [body];
    [closeReadable(stream)] is recorded as [Closed stream].  When the
    resolver rejects, the call is left before the stream is closed. *)
Definition lookupMimeTypeFromStream (path : string) (opts : MimeTypeOptions)
  : list Effect * Promise (option string) :=
  match read path with
  | Fulfilled body =>
      match StreamMimeType.resolveMimeType path body None with
      | StreamMimeType.Resolved (mimetype, stream) =>
          ([Closed stream], Fulfilled mimetype)
      | StreamMimeType.Failed e => ([], Rejected (Library e))
      | StreamMimeType.Unsettled => ([], Pending)
      end
  | Rejected e => ([], Rejected e)
  | Pending => ([], Pending)
  end.

Definition mimeType (path : string) (opts : MimeTypeOptions)
  : list Effect * Promise string :=
  match stat path with
  | Fulfilled response =>
      let fallback :=
        if Js.nullish (disallowFallback opts) false then
          ([], Rejected (Error "Mime-type not available via HeadObject"))
        else
          let method := Js.nullish (fallbackMethod opts) "path" in
          let '(effects, looked) :=
            if (method =? "path")%string then ([], Fulfilled (lookup path))
            else lookupMimeTypeFromStream path opts in
          (effects,
           found <- looked ;;
           match found with
           | None => Rejected (Error "Unable to resolve mime-type")
           | Some mimeType => Fulfilled mimeType
           end) in
      if negb (isFile response) then
        ([], Rejected (Error ("Path " ++ String quote path
                               ++ " is not a file.")%string))
      else
        match FileStorage.mimeType response with
        | Some stored =>
            if Js.truthy stored then ([], Fulfilled stored) else fallback
        | None => fallback
        end
  | Rejected e => ([], Rejected e)
  | Pending => ([], Pending)
  end.

End Adapter.

End AwsS3FileStorage.

(** ** What the adapter relies on from ListObjectsV2

    [list] does not compare the entries it yields with one another: that
    none is yielded twice rests on the service.  These definitions say
    what the service is relied on for; they are hypotheses of the
    properties of [list], about the pages the client serves. *)

Module S3Listing.
Import AwsSdk AwsS3FileStorage.

(** The pages served for a listing: the answer to [request], then the
    answers to the requests that continue it, while the service reports
    more (at most [n] pages). *)
Fixpoint pagesServed (client : S3Client) (request : ListObjectsV2CommandInput)
         (n : nat) : list ListObjectsV2Output :=
  match n with
  | 0 => []
  | S n' =>
      match sendListObjectsV2 client request with
      | Failure _ => []
      | Answer response =>
          response ::
          if Js.nullish (IsTruncated response) false
          then pagesServed client
                 {| list_Bucket := list_Bucket request;
                    Prefix_ := Prefix_ request;
                    Delimiter := Delimiter request;
                    ContinuationToken := NextContinuationToken response;
                    MaxKeys := MaxKeys request |} n'
          else []
      end
  end.

(** The common prefixes, then the objects, of a page. *)
Definition pageItems (response : ListObjectsV2Output) : list ListItem :=
  map prefix (Js.nullish (CommonPrefixes response) [])
  ++ map object (Js.nullish (Contents response) []).

(** [item.Prefix] of a common prefix, [item.Key] of an object. *)
Definition itemName (it : ListItem) : option string :=
  match it with
  | prefix item => Prefix item
  | object item => Key item
  end.

Definition definedNames (items : list ListItem) : list string :=
  flat_map (fun it => match itemName it with
                      | Some n => [n]
                      | None => []
                      end) items.

Fixpoint distinct (names : list string) : bool :=
  match names with
  | [] => true
  | n :: rest => negb (existsb (String.eqb n) rest) && distinct rest
  end.

(** [s] without its prefix [p]. *)
Fixpoint afterPrefix (p s : string) : option string :=
  match p with
  | EmptyString => Some s
  | String a p' =>
      match s with
      | String b s' => if (a =? b)%char then afterPrefix p' s' else None
      | EmptyString => None
      end
  end.

Fixpoint hasSlash (s : string) : bool :=
  match s with
  | EmptyString => false
  | String c rest => (c =? "/")%char || hasSlash rest
  end.

(** One path segment and the slash that closes it. *)
Fixpoint segment (s : string) : bool :=
  match s with
  | EmptyString => false
  | String c rest =>
      if (c =? "/")%char then (rest =? EmptyString)%string else segment rest
  end.

(** With the delimiter [/], the service rolls every key that has a
    slash after the prefix up into a common prefix, which ends at that
    slash; without a delimiter it reports no common prefix. *)
Definition conforms (deep_ : bool) (prefix_ : string) (it : ListItem) : bool :=
  match it, itemName it with
  | _, None => true
  | prefix _, Some n =>
      if deep_ then false
      else match afterPrefix prefix_ n with
           | Some rest => segment rest
           | None => false
           end
  | object _, Some n =>
      if deep_ then true
      else match afterPrefix prefix_ n with
           | Some rest => negb (hasSlash rest)
           | None => false
           end
  end.

(** What [listObjects] keeps of a page when it skips the listed
    directory itself. *)
Definition kept (prefix_ : string) (it : ListItem) : bool :=
  negb (strictEq (itemName it) prefix_ || isUndefined (itemName it)).

(** What tells two entries apart: the kind and the path. *)
Definition entryName (entry : FileStorage.StatEntry)
  : FileStorage.EntryType * string :=
  (FileStorage.type entry, FileStorage.path entry).

Definition sameEntryName (a b : FileStorage.EntryType * string) : bool :=
  match fst a, fst b with
  | FileStorage.file, FileStorage.file
  | FileStorage.directory, FileStorage.directory => (snd a =? snd b)%string
  | _, _ => false
  end.

Section Stripped.
Context `{FileStorage.PathPrefixer}.

(** The kind and the path that a name of the service is listed under: a
    name that ends in a slash is a directory. *)
Definition listedAs (name : string) : FileStorage.EntryType * string :=
  if Js.endsWith name "/"
  then (FileStorage.directory, FileStorage.stripDirectoryPath name)
  else (FileStorage.file, FileStorage.stripFilePath name).

(** [list] compares no paths either: that two names are not listed as
    one entry, and that only the listed directory is listed under its own
    path, rests on the prefixer and the names.  This is what it is
    relied on for: names that differ are stripped to entries that
    differ, and no name but that of the directory to its path. *)
Definition toldApart (path_ : string) (names : list string) : bool :=
  forallb
    (fun a =>
       forallb (fun b => (a =? b)%string
                         || negb (sameEntryName (listedAs a) (listedAs b)))
               names
       && ((a =? FileStorage.prefixDirectoryPath path_)%string
           || negb (snd (listedAs a) =? path_)%string))
    names.

End Stripped.

End S3Listing.

(** ** Concrete instances

    Small instances of the interfaces, and streams and clients built on
    them, on which the properties below are exercised. *)

Module Examples.
Import StreamMimeType FileStorage AwsSdk AwsS3FileStorage.

Definition asciiUpper (c : ascii) : ascii :=
  let n := nat_of_ascii c in
  if (97 <=? n) && (n <=? 122) then ascii_of_nat (n - 32) else c.

(** [toUpperCase] on ASCII strings. *)
Fixpoint asciiUpperCase (s : string) : string :=
  match s with
  | EmptyString => EmptyString
  | String c s' => String (asciiUpper c) (asciiUpperCase s')
  end.

Definition asciiStrings : StringBuiltins :=
  {| toUpperCase := asciiUpperCase |}.

Definition visibilityEnum : Visibility :=
  {| PUBLIC := "public"; PRIVATE := "private" |}.

(** The file name from its last dot on. *)
Fixpoint fromLastDot (s : string) : option string :=
  match s with
  | EmptyString => None
  | String c rest =>
      match fromLastDot rest with
      | Some e => Some e
      | None => if (c =? ".")%char then Some s else None
      end
  end.

(** A signature table with one entry (PNG) and an extension table
    with two.  After the eight bytes of the signature file-type reads
    the header of the first chunk, eight bytes more, and its promise is
    rejected with an EndOfStreamError when the head ends before. *)
Definition smallTables : MimeLibraries :=
  {| fileTypeFromBuffer := fun head =>
       match head with
       | x89 :: x50 :: x4e :: x47 :: x0d :: x0a :: x1a :: x0a :: rest =>
           if length rest <? 8
           then Raised {| errorName := "EndOfStreamError" |}
           else Value (Some "image/png")
       | _ => Value None
       end;
     parse_ext := fun filename => Js.nullish (fromLastDot filename) EmptyString;
     lookup := fun p =>
       if Js.endsWith p ".txt" then Some "text/plain"
       else if Js.endsWith p ".png" then Some "image/png"
       else None |}.

(** The signature of PNG and nothing after it. *)
Definition pngStream : Readable :=
  {| chunks := [[x89; x50]; [x4e; x47; x0d; x0a]; [x1a; x0a]]; ends := true |}.

(** The signature, the IHDR chunk of an image of one pixel, and the
    header of its IDAT chunk. *)
Definition pngImage : Readable :=
  {| chunks :=
       [[x89; x50; x4e; x47; x0d; x0a; x1a; x0a];
        [x00; x00; x00; x0d; x49; x48; x44; x52;
         x00; x00; x00; x01; x00; x00; x00; x01; x08; x06; x00; x00; x00;
         x1f; x15; xc4; x89];
        [x00; x00; x00; x0a; x49; x44; x41; x54]];
     ends := true |}.

Definition textStream : Readable :=
  {| chunks := [[x68; x65]; []; [x6c; x6c; x6f]]; ends := true |}.

(** [s] without the slashes it ends in. *)
Fixpoint withoutTrailingSlash (s : string) : string :=
  match s with
  | EmptyString => EmptyString
  | String c rest =>
      match withoutTrailingSlash rest with
      | EmptyString => if (c =? "/")%char then EmptyString
                       else String c EmptyString
      | kept => String c kept
      end
  end.

(** Modelled from the spec: the [PathPrefixer] of
    @flystorage/file-storage, which is not among the sources, for an
    empty root and paths that are normalized.  A prefixed directory path
    ends in the separator; stripping removes the root and, of a
    directory path, the trailing separators (separators are normalized:
    a stripped directory path ends in none). *)
Definition rootPrefixer : PathPrefixer :=
  {| prefixFilePath := fun p => p;
     prefixDirectoryPath := fun p => (p ++ "/")%string;
     stripFilePath := fun k => k;
     stripDirectoryPath := withoutTrailingSlash |}.

Definition storage : AwsS3FileStorageOptions :=
  {| bucket := "flysystem-check"; defaultChecksumAlgo := None |}.

(** A client with no connection. *)
Definition offline : S3Client :=
  {| sendHeadObject := fun _ => Failure (OtherError "offline");
     sendGetObject := fun _ => Failure (OtherError "offline");
     sendGetObjectAcl := fun _ => Failure (OtherError "offline");
     sendListObjectsV2 := fun _ => Failure (OtherError "offline");
     sendDeleteObjects := fun _ => Failure (OtherError "offline") |}.

Definition quoted (s : string) : string :=
  String quote (s ++ String quote EmptyString)%string.

(** What HeadObject answers for an object last modified at
    2023-11-14T22:13:20.123Z. *)
Definition storedFile : HeadObjectOutput :=
  {| ContentLength := Some 5%Z;
     LastModified := Some {| Js.time := 1700000000123%Z |};
     ContentType := Some "text/plain";
     ETag := Some (quoted "5d41402abc4b2a76b9719d911017c592");
     ChecksumSHA1 := None;
     ChecksumSHA256 := Some "LPJNul+wow4m6DsqxbninhsWHlwfp0JecwQzYpOLmCQ=";
     ChecksumCRC32 := None;
     ChecksumCRC32C := None |}.

Definition publicReadGrant : Grant :=
  {| grantee :=
       Some {| URI := Some "http://acs.amazonaws.com/groups/global/AllUsers" |};
     Permission := Some "READ" |}.

Definition ownerGrant : Grant :=
  {| grantee := Some {| URI := None |}; Permission := Some "FULL_CONTROL" |}.

(** A bucket in which every key is that one public text file. *)
Definition oneFile : S3Client :=
  {| sendHeadObject := fun _ => Answer storedFile;
     sendGetObject := fun _ =>
       Answer {| Body := Some (NodeReadable textStream) |};
     sendGetObjectAcl := fun _ =>
       Answer {| Grants := Some [ownerGrant; publicReadGrant] |};
     sendListObjectsV2 := fun _ => Failure (OtherError "offline");
     sendDeleteObjects := fun _ => Answer tt |}.

(** The same file, stored with an empty content type. *)
Definition untypedFile : S3Client :=
  {| sendHeadObject := fun _ =>
       Answer {| ContentLength := Some 5%Z;
                 LastModified := None;
                 ContentType := Some EmptyString;
                 ETag := None;
                 ChecksumSHA1 := None; ChecksumSHA256 := None;
                 ChecksumCRC32 := None; ChecksumCRC32C := None |};
     sendGetObject := sendGetObject oneFile;
     sendGetObjectAcl := sendGetObjectAcl oneFile;
     sendListObjectsV2 := sendListObjectsV2 oneFile;
     sendDeleteObjects := sendDeleteObjects oneFile |}.

(** An object stored without a content type, whose bytes are the
    signature of PNG and nothing more. *)
Definition untypedSignature : S3Client :=
  {| sendHeadObject := sendHeadObject untypedFile;
     sendGetObject := fun _ =>
       Answer {| Body := Some (NodeReadable pngStream) |};
     sendGetObjectAcl := sendGetObjectAcl oneFile;
     sendListObjectsV2 := sendListObjectsV2 oneFile;
     sendDeleteObjects := sendDeleteObjects oneFile |}.

Definition emptyPage : ListObjectsV2Output :=
  {| CommonPrefixes := None; Contents := None;
     NextContinuationToken := None; IsTruncated := Some false |}.

(** An empty bucket. *)
Definition emptyBucket : S3Client :=
  {| sendHeadObject := fun _ => Failure (S3ServiceException "NotFound" (Some 404%Z));
     sendGetObject := fun _ => Failure (S3ServiceException "NoSuchKey" (Some 404%Z));
     sendGetObjectAcl := fun _ => Failure (S3ServiceException "NoSuchKey" (Some 404%Z));
     sendListObjectsV2 := fun _ => Answer emptyPage;
     sendDeleteObjects := fun _ => Answer tt |}.

(** The decimal name of a number. *)
Definition decimal (n : nat) : string :=
  NilZero.string_of_uint (Nat.to_uint n).

Definition objectNamed (key : string) : _Object :=
  {| Key := Some key; Size := Some 3%Z;
     obj_LastModified := Some {| Js.time := 1700000000123%Z |} |}.

(** A directory of 1001 objects, dir/0 to dir/1000, listed in one page. *)
Definition crowdedPage : ListObjectsV2Output :=
  {| CommonPrefixes := None;
     Contents :=
       Some (map (fun n => objectNamed ("dir/" ++ decimal n)%string)
                 (seq 0 1001));
     NextContinuationToken := None;
     IsTruncated := Some false |}.

Definition crowded : S3Client :=
  {| sendHeadObject := sendHeadObject oneFile;
     sendGetObject := sendGetObject oneFile;
     sendGetObjectAcl := sendGetObjectAcl oneFile;
     sendListObjectsV2 := fun _ => Answer crowdedPage;
     sendDeleteObjects := fun _ => Answer tt |}.

(** A bucket with photos/ (a marker), photos/a.png, photos/b.png,
    photos/2023/ (a marker), photos/2023/x.png and photos/2024/y.png.
    With the delimiter the listing of photos/ comes in two pages,
    without it in one. *)
Definition shallowPage1 : ListObjectsV2Output :=
  {| CommonPrefixes := Some [{| Prefix := Some "photos/2023/" |}];
     Contents := Some [objectNamed "photos/"; objectNamed "photos/a.png"];
     NextContinuationToken := Some "page-2";
     IsTruncated := Some true |}.

Definition shallowPage2 : ListObjectsV2Output :=
  {| CommonPrefixes := Some [{| Prefix := Some "photos/2024/" |}];
     Contents := Some [objectNamed "photos/b.png"];
     NextContinuationToken := None;
     IsTruncated := Some false |}.

Definition deepPage : ListObjectsV2Output :=
  {| CommonPrefixes := None;
     Contents :=
       Some [objectNamed "photos/"; objectNamed "photos/2023/";
             objectNamed "photos/2023/x.png"; objectNamed "photos/2024/y.png";
             objectNamed "photos/a.png"; objectNamed "photos/b.png"];
     NextContinuationToken := None;
     IsTruncated := Some false |}.

Definition photos : S3Client :=
  {| sendHeadObject := sendHeadObject oneFile;
     sendGetObject := sendGetObject oneFile;
     sendGetObjectAcl := sendGetObjectAcl oneFile;
     sendListObjectsV2 := fun request =>
       match Delimiter request, ContinuationToken request with
       | Some _, None => Answer shallowPage1
       | Some _, Some _ => Answer shallowPage2
       | None, _ => Answer deepPage
       end;
     sendDeleteObjects := fun _ => Answer tt |}.

(** A zero-length object, as the consoles and other tools store one for
    a directory. *)
Definition markerNamed (key : string) : _Object :=
  {| Key := Some key; Size := Some 0%Z; obj_LastModified := None |}.

(** A bucket with three markers under photos/, two of them with keys
    that end in more than one slash: photos//, photos/a/ and photos/a//.
    Its listing without a delimiter is one page of the three objects, in
    the order of their keys; with the delimiter it is one page of the two
    common prefixes they roll up into. *)
Definition doubledSlashesDeep : ListObjectsV2Output :=
  {| CommonPrefixes := None;
     Contents :=
       Some [markerNamed "photos//"; markerNamed "photos/a/";
             markerNamed "photos/a//"];
     NextContinuationToken := None;
     IsTruncated := Some false |}.

Definition doubledSlashesShallow : ListObjectsV2Output :=
  {| CommonPrefixes :=
       Some [{| Prefix := Some "photos//" |}; {| Prefix := Some "photos/a/" |}];
     Contents := None;
     NextContinuationToken := None;
     IsTruncated := Some false |}.

Definition doubledSlashes : S3Client :=
  {| sendHeadObject := sendHeadObject oneFile;
     sendGetObject := sendGetObject oneFile;
     sendGetObjectAcl := sendGetObjectAcl oneFile;
     sendListObjectsV2 := fun request =>
       match Delimiter request with
       | Some _ => Answer doubledSlashesShallow
       | None => Answer doubledSlashesDeep
       end;
     sendDeleteObjects := fun _ => Answer tt |}.

End Examples.

(** ** More of JavaScript: characters of a string, String.prototype.replace *)

Module JsString.

(** Some character of [s] passes [test]. *)
Fixpoint anyChar (test : ascii -> bool) (s : string) : bool :=
  match s with
  | EmptyString => false
  | String c rest => test c || anyChar test rest
  end.

Definition hasChar (c : ascii) (s : string) : bool := anyChar (Ascii.eqb c) s.

(** [`${o}`] for [o : string | undefined]. *)
Definition show (o : option string) : string := Js.nullish o "undefined".

(** GetSubstitution for a pattern that is a string (no captures): in
    the replacement, [$$] stands for a dollar, [$&] for the match, [$]
    and a backquote for what is before the match, [$] and a quote for
    what is after it; any other [$] stands for itself. *)
Fixpoint substitute (replacement matched before after : string) : string :=
  match replacement with
  | EmptyString => EmptyString
  | String c rest =>
      if (c =? "$")%char then
        match rest with
        | EmptyString => String c EmptyString
        | String d rest' =>
            if (d =? "$")%char then
              String "$" (substitute rest' matched before after)
            else if (d =? "&")%char then
              (matched ++ substitute rest' matched before after)%string
            else if (d =? "`")%char then
              (before ++ substitute rest' matched before after)%string
            else if (d =? "'")%char then
              (after ++ substitute rest' matched before after)%string
            else
              String c (String d (substitute rest' matched before after))
        end
      else String c (substitute rest matched before after)
  end.

(** [s.replace(pattern, replacement)] for a pattern that is a string:
    the first occurrence is replaced.  [before] is what of the string
    has been passed. *)
Fixpoint replaceFrom (before s pattern replacement : string) : string :=
  match S3Listing.afterPrefix pattern s with
  | Some after => (substitute replacement pattern before after ++ after)%string
  | None =>
      match s with
      | EmptyString => EmptyString
      | String c rest =>
          String c (replaceFrom (before ++ String c EmptyString)%string
                                rest pattern replacement)
      end
  end.

Definition replace (s pattern replacement : string) : string :=
  replaceFrom EmptyString s pattern replacement.

End JsString.

(** What a generator throws, when it ends by throwing. *)
Fixpoint thrown {A : Type} (g : AwsS3FileStorage.AsyncGenerator A)
  : option AwsS3FileStorage.Exception :=
  match g with
  | AwsS3FileStorage.Yield _ rest => thrown rest
  | AwsS3FileStorage.ThrowG e => Some e
  | _ => None
  end.

(** ** The AWS S3 adapter: URLs *)

Module AwsS3Urls.
Import FileStorage AwsSdk AwsS3FileStorage.

(** An own property of an options object: absent, or present with a
    value, which may be [undefined]. *)
Inductive Property (A : Type) :=
| Absent
| Present (value : option A).
Arguments Absent {A}.
Arguments Present {A} value.

(** [o.p] *)
Definition get {A : Type} (p : Property A) : option A :=
  match p with
  | Present value => value
  | Absent => None
  end.

(** One property of [{...a, ...b}]. *)
Definition spread {A : Type} (a b : Property A) : Property A :=
  match b with
  | Present _ => b
  | Absent => a
  end.

(** [AwsPublicUrlOptions], by the properties the generator reads. *)
Record AwsPublicUrlOptions := {
  url_bucket : Property string;
  region : Property string;
  forcePathStyle : Property bool;
  baseUrl : Property string
}.

(** [{...a, ...b}] *)
Definition spreadOptions (a b : AwsPublicUrlOptions) : AwsPublicUrlOptions :=
  {| url_bucket := spread (url_bucket a) (url_bucket b);
     region := spread (region a) (region b);
     forcePathStyle := spread (forcePathStyle a) (forcePathStyle b);
     baseUrl := spread (baseUrl a) (baseUrl b) |}.

(** An object without any of these properties ([undefined], when it is
    spread). *)
Definition noOptions : AwsPublicUrlOptions :=
  {| url_bucket := Absent; region := Absent;
     forcePathStyle := Absent; baseUrl := Absent |}.

(** [DefaultAwsPublicUrlGenerator.publicUrl] (the promise it returns is
    fulfilled with this string). *)
Definition defaultPublicUrl (path : string) (options : AwsPublicUrlOptions)
  : string :=
  let baseUrl :=
    Js.nullish (get (baseUrl options))
               "https://{subdomain}.amazonaws.com/{uri}" in
  let pathStyle :=
    match get (forcePathStyle options) with
    | Some true => true
    | _ => false
    end in
  let subdomain :=
    if negb pathStyle
    then (JsString.show (get (url_bucket options)) ++ ".s3")%string
    else match get (region options) with
         | None => "s3"
         | Some r => ("s3-" ++ r)%string
         end in
  let uri :=
    if negb pathStyle then path
    else (JsString.show (get (url_bucket options)) ++ "/" ++ path)%string in
  JsString.replace (JsString.replace baseUrl "{subdomain}" subdomain)
                   "{uri}" uri.

(** [AwsPublicUrlGenerator] *)
Class AwsPublicUrlGenerator := {
  generatePublicUrl : string -> AwsPublicUrlOptions -> Promise string
}.

Definition DefaultAwsPublicUrlGenerator : AwsPublicUrlGenerator :=
  {| generatePublicUrl := fun path options =>
       Fulfilled (defaultPublicUrl path options) |}.

(** [HostStyleAwsPublicUrlGenerator] extends the default one and
    overrides nothing. *)
Definition HostStyleAwsPublicUrlGenerator : AwsPublicUrlGenerator :=
  DefaultAwsPublicUrlGenerator.

Section Urls.
Context (options : AwsS3FileStorageOptions).
Context `{PathPrefixer} `{AwsPublicUrlGenerator}.

(** [options.publicUrlOptions] of the adapter. *)
Variable publicUrlOptions : option AwsPublicUrlOptions.

Definition publicUrl (path : string) (callOptions : AwsPublicUrlOptions)
  : Promise string :=
  generatePublicUrl (prefixFilePath path)
    (spreadOptions
       (spreadOptions
          {| url_bucket := Present (Some (bucket options)); region := Absent;
             forcePathStyle := Absent; baseUrl := Absent |}
          callOptions)
       (Js.nullish publicUrlOptions noOptions)).

(** [options.expiresAt], a number or a [Date], and
    [normalizeExpiryToMilliseconds] of file-storage. *)
Variable ExpiresAt : Type.
Variable normalizeExpiryToMilliseconds : ExpiresAt -> Z.

(** [getSignedUrl(client, new GetObjectCommand(input), {expiresIn})] *)
Variable getSignedUrl : GetObjectCommandInput -> Z -> Response string.

(** What [timestampResolver()] returns at the call. *)
Variable now : Z.

(** [Math.floor((expiry - now) / 1000)], for whole numbers of
    milliseconds (below 2^53, where the division of the doubles rounds
    to the same whole number of seconds). *)
Definition expiresIn (expiry : Z) : Z := ((expiry - now) / 1000)%Z.

Definition temporaryUrl (path : string) (expiresAt : ExpiresAt)
  : Promise string :=
  let expiry := normalizeExpiryToMilliseconds expiresAt in
  send (getSignedUrl
          {| get_Bucket := bucket options;
             get_Key := prefixFilePath path |}
          (expiresIn expiry)).

End Urls.

End AwsS3Urls.

(** ** The AWS S3 adapter: writes *)

Module AwsS3Writes.
Import StreamMimeType FileStorage AwsSdk AwsS3FileStorage AwsS3Urls.

(** What is uploaded: a stream, or the empty string of
    [createDirectory]. *)
Inductive UploadBody :=
| StreamBody (r : Readable)
| EmptyText.

(** [PutObjectOptions]: the input of PutObject but for Bucket and Key.
    The properties the adapter sets are spelled out; the others are
    kept as they are given. *)
Record PutObjectOptions := {
  put_Body : Property UploadBody;
  put_ACL : Property string;
  put_ContentType : Property string;
  put_ContentLength : Property Z;
  put_others : list (string * string)
}.

(** [Object.assign({}, a, b)]; a source that is [undefined] is
    skipped. *)
Definition assign (a : option PutObjectOptions) (b : PutObjectOptions)
  : PutObjectOptions :=
  match a with
  | None => b
  | Some a =>
      {| put_Body := spread (put_Body a) (put_Body b);
         put_ACL := spread (put_ACL a) (put_ACL b);
         put_ContentType := spread (put_ContentType a) (put_ContentType b);
         put_ContentLength := spread (put_ContentLength a) (put_ContentLength b);
         put_others := put_others b ++ put_others a |}
  end.

Record PutObjectCommandInput := {
  put_Bucket : string;
  put_Key : string;
  put_rest : PutObjectOptions
}.

Record PutObjectAclCommandInput := {
  putacl_Bucket : string;
  putacl_Key : string;
  putacl_ACL : string
}.

Record DeleteObjectCommandInput := {
  delete_Bucket : string;
  delete_Key : string
}.

(** [new Upload({client, params}).done()], and the two commands sent
    through the client. *)
Record S3Writes := {
  sendUpload : PutObjectCommandInput -> Response unit;
  sendPutObjectAcl : PutObjectAclCommandInput -> Response unit;
  sendDeleteObject : DeleteObjectCommandInput -> Response unit
}.

Record WriteOptions := {
  write_visibility : option string;
  write_mimeType : option string;
  write_size : option Z
}.

Record CreateDirectoryOptions := {
  directoryVisibility : option string
}.

Section Writes.
Context (writes : S3Writes) (options : AwsS3FileStorageOptions).
Context `{PathPrefixer} `{Visibility} `{MimeLibraries}.

(** [options.putObjectOptions] of the adapter. *)
Variable putObjectOptions : option PutObjectOptions.

(** [upload]: the upload that is started, and its outcome.  The
    [uploadConfiguration] of the adapter (queue and part sizes) goes to
    [Upload] beside [params] and has no part in them. *)
Definition upload (key : string) (contents : UploadBody)
           (callOptions : PutObjectOptions)
  : list PutObjectCommandInput * Promise unit :=
  let assigned := assign putObjectOptions callOptions in
  let params :=
    {| put_Bucket := bucket options;
       put_Key := key;
       put_rest :=
         {| put_Body := spread (Present (Some contents)) (put_Body assigned);
            put_ACL := put_ACL assigned;
            put_ContentType := put_ContentType assigned;
            put_ContentLength := put_ContentLength assigned;
            put_others := put_others assigned |} |} in
  ([params], _ <- send (sendUpload writes params) ;; Fulfilled tt).

(** [v ? this.visibilityToAcl(v) : undefined] *)
Definition aclFor (v : option string) : Completion (option string) :=
  match v with
  | Some v =>
      if Js.truthy v then
        match visibilityToAcl v with
        | Returned acl => Returned (Some acl)
        | Thrown e => Thrown e
        end
      else Returned None
  | None => Returned None
  end.

Definition write (path : string) (contents : Readable) (opts : WriteOptions)
  : list PutObjectCommandInput * Promise unit :=
  let resolved :=
    match write_mimeType opts with
    | Some mimeType => Resolved (Some mimeType, contents)
    | None => resolveMimeType path contents None
    end in
  match resolved with
  | Unsettled => ([], Pending)
  | Failed e => ([], Rejected (Library e))
  | Resolved (mimeType, contents) =>
      match aclFor (write_visibility opts) with
      | Thrown e => ([], Rejected e)
      | Returned acl =>
          upload (prefixFilePath path) (StreamBody contents)
            {| put_Body := Absent;
               put_ACL := Present acl;
               put_ContentType := Present mimeType;
               put_ContentLength := Present (write_size opts);
               put_others := [] |}
      end
  end.

Definition createDirectory (path : string) (opts : CreateDirectoryOptions)
  : list PutObjectCommandInput * Promise unit :=
  match aclFor (directoryVisibility opts) with
  | Thrown e => ([], Rejected e)
  | Returned acl =>
      upload (prefixDirectoryPath path) EmptyText
        {| put_Body := Absent;
           put_ACL := Present acl;
           put_ContentType := Absent;
           put_ContentLength := Absent;
           put_others := [] |}
  end.

Definition changeVisibility (path visibility : string)
  : list PutObjectAclCommandInput * Promise unit :=
  match visibilityToAcl visibility with
  | Thrown e => ([], Rejected e)
  | Returned acl =>
      let command :=
        {| putacl_Bucket := bucket options;
           putacl_Key := prefixFilePath path;
           putacl_ACL := acl |} in
      ([command], _ <- send (sendPutObjectAcl writes command) ;; Fulfilled tt)
  end.

Definition deleteFile (path : string)
  : list DeleteObjectCommandInput * Promise unit :=
  let key := prefixFilePath path in
  let command := {| delete_Bucket := bucket options; delete_Key := key |} in
  ([command], _ <- send (sendDeleteObject writes command) ;; Fulfilled tt).

End Writes.

End AwsS3Writes.

(** ** More concrete instances *)

Module MoreExamples.
Import StreamMimeType FileStorage AwsSdk AwsS3FileStorage Examples.

(** A listing that is cut off: a first page of 1002 objects, and a
    failure where the second page is asked for. *)
Definition interrupted : S3Client :=
  {| sendHeadObject := sendHeadObject oneFile;
     sendGetObject := sendGetObject oneFile;
     sendGetObjectAcl := sendGetObjectAcl oneFile;
     sendListObjectsV2 := fun request =>
       match ContinuationToken request with
       | None =>
           Answer {| CommonPrefixes := None;
                     Contents :=
                       Some (map (fun n => objectNamed ("dir/" ++ decimal n)%string)
                                 (seq 0 1002));
                     NextContinuationToken := Some "page-2";
                     IsTruncated := Some true |}
       | Some _ => Failure (OtherError "timeout")
       end;
     sendDeleteObjects := fun _ => Answer tt |}.

(** A service that honours MaxKeys = 2 with a first page of one object
    and a second page of two. *)
Definition shortFirstPage : S3Client :=
  {| sendHeadObject := sendHeadObject oneFile;
     sendGetObject := sendGetObject oneFile;
     sendGetObjectAcl := sendGetObjectAcl oneFile;
     sendListObjectsV2 := fun request =>
       match ContinuationToken request with
       | None =>
           Answer {| CommonPrefixes := None;
                     Contents := Some [objectNamed "dir/a"];
                     NextContinuationToken := Some "page-2";
                     IsTruncated := Some true |}
       | Some _ =>
           Answer {| CommonPrefixes := None;
                     Contents := Some [objectNamed "dir/b"; objectNamed "dir/c"];
                     NextContinuationToken := Some "page-3";
                     IsTruncated := Some true |}
       end;
     sendDeleteObjects := fun _ => Answer tt |}.

(** Options of a call of [publicUrl], and of a generator. *)
Definition bucketOnly : AwsS3Urls.AwsPublicUrlOptions :=
  {| AwsS3Urls.url_bucket := AwsS3Urls.Present (Some "flysystem-check");
     AwsS3Urls.region := AwsS3Urls.Absent;
     AwsS3Urls.forcePathStyle := AwsS3Urls.Absent;
     AwsS3Urls.baseUrl := AwsS3Urls.Absent |}.

Definition pathStyleIn (r : option string) : AwsS3Urls.AwsPublicUrlOptions :=
  {| AwsS3Urls.url_bucket := AwsS3Urls.Present (Some "flysystem-check");
     AwsS3Urls.region := AwsS3Urls.Present r;
     AwsS3Urls.forcePathStyle := AwsS3Urls.Present (Some true);
     AwsS3Urls.baseUrl := AwsS3Urls.Absent |}.

(** A configuration that holds every property, with a base URL of a
    content delivery network. *)
Definition cdn : AwsS3Urls.AwsPublicUrlOptions :=
  {| AwsS3Urls.url_bucket := AwsS3Urls.Present (Some "assets");
     AwsS3Urls.region := AwsS3Urls.Present None;
     AwsS3Urls.forcePathStyle := AwsS3Urls.Present (Some false);
     AwsS3Urls.baseUrl := AwsS3Urls.Present (Some "https://cdn.example.com/{uri}") |}.

(** Uploads and commands that are all answered. *)
Definition answering : AwsS3Writes.S3Writes :=
  {| AwsS3Writes.sendUpload := fun _ => Answer tt;
     AwsS3Writes.sendPutObjectAcl := fun _ => Answer tt;
     AwsS3Writes.sendDeleteObject := fun _ => Answer tt |}.

(** A stream that stalls after two bytes. *)
Definition stalledStream : Readable :=
  {| chunks := [[x68; x65]]; ends := false |}.

(** A configuration of the adapter that asks for public objects of
    type text/plain. *)
Definition publicByDefault : AwsS3Writes.PutObjectOptions :=
  {| AwsS3Writes.put_Body := AwsS3Urls.Absent;
     AwsS3Writes.put_ACL := AwsS3Urls.Present (Some "public-read");
     AwsS3Writes.put_ContentType := AwsS3Urls.Present (Some "text/plain");
     AwsS3Writes.put_ContentLength := AwsS3Urls.Absent;
     AwsS3Writes.put_others := [("CacheControl", "max-age=60")] |}.

End MoreExamples.

(** * Properties *)

(** ** The stream MIME-type resolver *)

Section StreamHead.
Import StreamMimeType.

Lemma total_length (input : list Uint8Array) (n : nat) :
  fold_left (fun l a => l + byteLength a) input n = n + length (concat input).
Proof.
  revert n. induction input as [|a input IH]; intros n; simpl.
  - lia.
  - rewrite IH, length_app. unfold byteLength. lia.
Qed.

Lemma skipn_zeros (n k : nat) :
  skipn n (newUint8Array k) = newUint8Array (k - n).
Proof.
  unfold newUint8Array. revert k.
  induction n as [|n IH]; intros k; simpl.
  - now rewrite Nat.sub_0_r.
  - destruct k as [|k]; simpl; [reflexivity | apply IH].
Qed.

(** Writing [source] at the end of what is already filled in. *)
Lemma set_at_end (done source : Uint8Array) (k : nat) :
  length source <= k ->
  set (done ++ newUint8Array k) source (length done)
  = (done ++ source) ++ newUint8Array (k - length source).
Proof.
  intros Hk. unfold set.
  rewrite firstn_app, Nat.sub_diag, firstn_all. simpl. rewrite app_nil_r.
  rewrite skipn_app, skipn_all2 by lia. simpl.
  replace (length done + length source - length done) with (length source) by lia.
  rewrite skipn_zeros. now rewrite <- app_assoc.
Qed.

Lemma concat_fold (input : list Uint8Array) (done : Uint8Array) (k : nat) :
  length (concat input) <= k ->
  fst (fold_left
         (fun '(output, position) i =>
            (set output i position, position + byteLength i))
         input (done ++ newUint8Array k, length done))
  = (done ++ concat input) ++ newUint8Array (k - length (concat input)).
Proof.
  revert done k. induction input as [|a input IH]; intros done k Hk; simpl in *.
  - now rewrite app_nil_r, Nat.sub_0_r.
  - rewrite length_app in Hk.
    rewrite set_at_end by lia.
    replace (length done + byteLength a) with (length (done ++ a))
      by (rewrite length_app; reflexivity).
    rewrite IH by lia.
    rewrite length_app, <- !app_assoc.
    replace (k - length a - length (concat input))
      with (k - (length a + length (concat input))) by lia.
    reflexivity.
Qed.

(** [concatUint8Arrays] joins the chunks, in order. *)
Lemma concatUint8Arrays_concat (input : list Uint8Array) :
  concatUint8Arrays input = concat input.
Proof.
  unfold concatUint8Arrays. rewrite total_length. simpl.
  change (newUint8Array (length (concat input)), 0)
    with (@nil byte ++ newUint8Array (length (concat input)), length (@nil byte)).
  rewrite concat_fold by lia.
  rewrite Nat.sub_diag. simpl. apply app_nil_r.
Qed.

(** Every write of [concatUint8Arrays] is inside the output array. *)
Lemma concat_positions_in_range (before after : list Uint8Array) (i : Uint8Array) :
  length (concat before) + byteLength i
  <= length (newUint8Array (length (concat (before ++ i :: after)))).
Proof.
  unfold newUint8Array, byteLength.
  rewrite repeat_length, concat_app, length_app. simpl.
  rewrite length_app. lia.
Qed.

Variable size : nat.

(** Once the promise has settled, chunks are only forwarded. *)
Lemma fold_settled (cs : list Uint8Array) (st : Tee) :
  resolved st = true ->
  let st' := fold_left (on_data size) cs st in
  resolved st' = true /\ promise st' = promise st
  /\ written st' = written st ++ cs /\ ended st' = ended st.
Proof.
  revert st. induction cs as [|c cs IH]; intros st Hr; simpl.
  - now rewrite app_nil_r.
  - assert (Hstep : on_data size st c = forward c st)
      by (unfold on_data, collect; now rewrite Hr).
    destruct (IH (on_data size st c)) as (H1 & H2 & H3 & H4).
    { rewrite Hstep. exact Hr. }
    rewrite Hstep in *. simpl in *.
    rewrite <- app_assoc in H3. auto.
Qed.

(** One chunk while it has not. *)
Lemma on_data_collecting (st : Tee) (c : Uint8Array) :
  resolved st = false ->
  let st' := on_data size st c in
  written st' = written st ++ [c] /\ ended st' = ended st
  /\ readBytes st' = readBytes st + byteLength c /\
  if size <=? readBytes st + byteLength c
  then resolved st' = true
       /\ promise st' = resolve (concat (buffers st ++ [c])) (promise st)
  else resolved st' = false /\ promise st' = promise st
       /\ buffers st' = buffers st ++ [c].
Proof.
  intros Hr. unfold on_data, collect. rewrite Hr.
  destruct (size <=? readBytes st + byteLength c); simpl;
    rewrite ?concatUint8Arrays_concat; repeat split; reflexivity.
Qed.

(** While it has not, chunks are buffered as well, up to the one that
    brings the count to [size]. *)
Lemma fold_collecting (cs : list Uint8Array) (st : Tee) :
  resolved st = false ->
  let st' := fold_left (on_data size) cs st in
  written st' = written st ++ cs /\ ended st' = ended st /\
  if reaches size (readBytes st) cs
  then resolved st' = true
       /\ promise st'
          = resolve (concat (buffers st ++ headChunks size (readBytes st) cs))
                    (promise st)
  else resolved st' = false /\ promise st' = promise st
       /\ buffers st' = buffers st ++ cs.
Proof.
  revert st. induction cs as [|c cs IH]; intros st Hr; simpl.
  - rewrite !app_nil_r. auto.
  - destruct (on_data_collecting st c Hr) as (Hw & He & Hn & Hstep).
    remember (on_data size st c) as s1 eqn:Hs1. clear Hs1.
    destruct (size <=? readBytes st + byteLength c) eqn:Hsize; simpl.
    + destruct Hstep as [Hr1 Hp1].
      destruct (fold_settled cs s1 Hr1) as (H1 & H2 & H3 & H4).
      simpl in *. rewrite H1, H2, H3, H4, Hw, He, Hp1, <- app_assoc. auto.
    + destruct Hstep as (Hr1 & Hp1 & Hb1).
      destruct (IH s1 Hr1) as (H1 & H2 & H3).
      simpl in *. rewrite H1, H2, Hw, He, <- app_assoc. simpl.
      split; [reflexivity | split; [reflexivity |]].
      rewrite Hn in H3.
      destruct (reaches size (readBytes st + byteLength c) cs).
      * destruct H3 as [H3 H5].
        rewrite H3, H5, Hb1, Hp1, <- app_assoc. auto.
      * destruct H3 as (H3 & H5 & H6).
        rewrite H3, H5, H6, Hb1, Hp1, <- app_assoc. auto.
Qed.

Lemma headChunks_all (seen : nat) (cs : list Uint8Array) :
  reaches size seen cs = false -> headChunks size seen cs = cs.
Proof.
  revert seen. induction cs as [|c cs IH]; intros seen; simpl; [reflexivity|].
  destruct (size <=? seen + byteLength c); simpl; [discriminate|].
  intros Hr. now rewrite IH.
Qed.

Lemma reaches_total (seen : nat) (cs : list Uint8Array) :
  seen < size ->
  reaches size seen cs = (size <=? seen + length (concat cs)).
Proof.
  revert seen. induction cs as [|c cs IH]; intros seen Hseen; simpl.
  - symmetry. apply Nat.leb_gt. lia.
  - rewrite length_app. unfold byteLength.
    destruct (size <=? seen + length c) eqn:Hc; simpl.
    + symmetry. apply Nat.leb_le. apply Nat.leb_le in Hc. lia.
    + apply Nat.leb_gt in Hc. rewrite IH by lia. f_equal. lia.
Qed.

(** The head is a run of leading chunks of the stream. *)
Lemma headChunks_prefix (seen : nat) (cs : list Uint8Array) :
  exists rest, cs = headChunks size seen cs ++ rest.
Proof.
  revert seen. induction cs as [|c cs IH]; intros seen; simpl.
  - now exists [].
  - destruct (size <=? seen + byteLength c).
    + now exists cs.
    + destruct (IH (seen + byteLength c)) as [rest Hrest].
      exists rest. simpl. now rewrite <- Hrest.
Qed.

(** A stream carries the bytes of its chunks that hold some. *)
Lemma concat_passedThrough (cs : list Uint8Array) :
  concat (passedThrough cs) = concat cs.
Proof.
  induction cs as [|c cs IH]; simpl; [reflexivity|].
  unfold holdsBytes, byteLength. destruct c as [|b c]; simpl.
  - exact IH.
  - now rewrite IH.
Qed.

Lemma contents_replayed (stream : Readable) :
  contents (replayed stream) = contents stream
  /\ ends (replayed stream) = ends stream.
Proof. split; [apply concat_passedThrough | reflexivity]. Qed.

(** What [streamHead] resolves with: the head, and a stream that emits
    what the source emits. *)
Lemma streamHead_spec (stream : Readable) :
  streamHead stream size =
  if reaches size 0 (passedThrough (chunks stream)) || ends stream
  then Some (concat (headChunks size 0 (passedThrough (chunks stream))),
             replayed stream)
  else None.
Proof.
  destruct stream as [cs0 e]. unfold streamHead, run, replayed. simpl.
  set (cs := passedThrough cs0).
  destruct (fold_collecting cs initial eq_refl) as (Hw & He & Hp).
  simpl in *.
  destruct (reaches size 0 cs) eqn:Hreach; simpl.
  - destruct Hp as [Hr Hp].
    destruct e; simpl; rewrite ?Hr, Hp, Hw; simpl; [reflexivity|].
    now rewrite He.
  - destruct Hp as (Hr & Hp & Hb).
    destruct e; simpl; rewrite ?Hr, Hp; simpl; [|reflexivity].
    rewrite Hb, Hw, concatUint8Arrays_concat. simpl.
    now rewrite headChunks_all.
Qed.

End StreamHead.

Section ResolveMimeType.
Import StreamMimeType.
Context `{MimeLibraries}.

(** The stream settles the promise when it ends, or when it carries
    the 4100 bytes. *)
Lemma streamHead_4100 (stream : Readable) :
  ends stream = true \/ 4100 <= length (contents stream) ->
  streamHead stream 4100
  = Some (concat (headChunks 4100 0 (passedThrough (chunks stream))),
          replayed stream).
Proof.
  intros Hs. rewrite streamHead_spec.
  rewrite reaches_total, concat_passedThrough by lia. unfold contents in Hs.
  destruct Hs as [He | Hlen].
  - rewrite He, orb_true_r. reflexivity.
  - apply Nat.leb_le in Hlen. rewrite Nat.add_0_l, Hlen. reflexivity.
Qed.

(** [resolveMimeType] on a stream that settles [streamHead], by what
    the sniffing of the head gives. *)
Lemma resolveMimeType_settled
      (filename : string) (stream : Readable) (fallback : option string) :
  ends stream = true \/ 4100 <= length (contents stream) ->
  resolveMimeType filename stream fallback
  = match fileTypeFromBuffer (sniffed stream) with
    | Raised e => Failed e
    | Value (Some mime) => Resolved (Some mime, replayed stream)
    | Value None =>
        Resolved (Js.or_else (lookup (parse_ext filename)) fallback,
                  replayed stream)
    end.
Proof.
  intros Hs. unfold resolveMimeType. now rewrite (streamHead_4100 stream Hs).
Qed.

(** A stream that [resolveMimeType] returns is the replay of its
    input. *)
Lemma resolveMimeType_returns_the_replay
      (filename : string) (stream : Readable) (fallback : option string)
      (mime : option string) (readable : Readable) :
  resolveMimeType filename stream fallback = Resolved (mime, readable) ->
  readable = replayed stream.
Proof.
  unfold resolveMimeType. rewrite streamHead_spec.
  destruct (reaches _ _ _ || ends stream); [|discriminate].
  destruct (fileTypeFromBuffer _) as [[detected|] | e];
    try discriminate; now intros [= _ <-].
Qed.

(** C2.  Every stream that [resolveMimeType] returns carries the bytes
    of the input stream, in order, none lost and none twice, and ends as
    the input does; this holds for inputs shorter than 4100 bytes as for
    longer ones.  And [resolveMimeType] does return a stream whenever
    the input ends or carries at least 4100 bytes and the sniffing of
    the head returns. *)
Theorem resolveMimeType_replays_stream
        (filename : string) (stream : Readable) (fallback : option string) :
  (forall mime readable,
      resolveMimeType filename stream fallback = Resolved (mime, readable) ->
      contents readable = contents stream /\ ends readable = ends stream)
  /\ (ends stream = true \/ 4100 <= length (contents stream) ->
      forall detected,
        fileTypeFromBuffer (sniffed stream) = Value detected ->
        exists mime readable,
          resolveMimeType filename stream fallback
          = Resolved (mime, readable)).
Proof.
  split.
  - intros mime readable Hresolved.
    apply resolveMimeType_returns_the_replay in Hresolved. subst readable.
    apply contents_replayed.
  - intros Hs detected Hdetected.
    rewrite (resolveMimeType_settled filename stream fallback Hs), Hdetected.
    destruct detected; eauto.
Qed.

(** A stream shorter than the threshold is buffered whole. *)
Lemma head_of_short_stream (stream : Readable) :
  length (contents stream) < 4100 ->
  sniffed stream = contents stream.
Proof.
  intros Hlen. unfold sniffed, contents in *.
  rewrite <- concat_passedThrough in Hlen.
  rewrite headChunks_all; [apply concat_passedThrough|].
  rewrite reaches_total by lia. apply Nat.leb_gt. lia.
Qed.

(** C4, amended.  Whenever the detection on the buffered head returns,
    [resolveMimeType] resolves in this order: the type detected from
    the signature of the head; else the type the extension of the file
    name is looked up to (a non-empty string); else the fallback of the
    caller; else undefined. *)
Theorem resolveMimeType_resolution_order
        (filename : string) (stream : Readable) (fallback : option string) :
  ends stream = true \/ 4100 <= length (contents stream) ->
  let head := sniffed stream in
  let byExtension := lookup (parse_ext filename) in
  let result := typeOf (resolveMimeType filename stream fallback) in
  (forall mime, fileTypeFromBuffer head = Value (Some mime) ->
                result = Resolved (Some mime))
  /\ (fileTypeFromBuffer head = Value None ->
      forall t, byExtension = Some t -> t <> EmptyString ->
                result = Resolved (Some t))
  /\ (fileTypeFromBuffer head = Value None ->
      byExtension = None \/ byExtension = Some EmptyString ->
      forall f, fallback = Some f -> result = Resolved (Some f))
  /\ (fileTypeFromBuffer head = Value None ->
      byExtension = None \/ byExtension = Some EmptyString ->
      fallback = None -> result = Resolved None).
Proof.
  intros Hs head byExtension result.
  subst result. rewrite (resolveMimeType_settled filename stream fallback Hs).
  fold head. fold byExtension.
  repeat split.
  - intros mime Hd. now rewrite Hd.
  - intros Hd t Ht Hne. rewrite Hd, Ht. simpl.
    unfold Js.truthy. apply String.eqb_neq in Hne. now rewrite Hne.
  - intros Hd [Ht | Ht] f Hf; rewrite Hd, Ht, Hf; reflexivity.
  - intros Hd [Ht | Ht] Hf; rewrite Hd, Ht, Hf; reflexivity.
Qed.

End ResolveMimeType.

Lemma resolveMimeType_replays_stream_witness :
  let stream := Examples.textStream in
  (StreamMimeType.ends stream = true
   \/ 4100 <= length (StreamMimeType.contents stream))
  /\ exists mime readable,
      @StreamMimeType.resolveMimeType Examples.smallTables
        "notes.txt" stream None = StreamMimeType.Resolved (mime, readable)
      /\ StreamMimeType.contents readable = StreamMimeType.contents stream
      /\ StreamMimeType.ends readable = StreamMimeType.ends stream.
Proof.
  intros stream.
  assert (Hs : StreamMimeType.ends stream = true
               \/ 4100 <= length (StreamMimeType.contents stream))
    by (left; reflexivity).
  split; [exact Hs|].
  destruct (@resolveMimeType_replays_stream Examples.smallTables
              "notes.txt" stream None) as [Hreplay Hreturns].
  destruct (Hreturns Hs None eq_refl) as (mime & readable & Hresolved).
  exists mime, readable. split; [exact Hresolved|].
  exact (Hreplay mime readable Hresolved).
Defined.

Lemma resolveMimeType_resolution_order_witness :
  (StreamMimeType.ends Examples.pngImage = true
   \/ 4100 <= length (StreamMimeType.contents Examples.pngImage))
  /\ StreamMimeType.typeOf
       (@StreamMimeType.resolveMimeType Examples.smallTables
          "picture.txt" Examples.pngImage None)
     = StreamMimeType.Resolved (Some "image/png").
Proof.
  split.
  - left. reflexivity.
  - destruct (@resolveMimeType_resolution_order Examples.smallTables
                "picture.txt" Examples.pngImage None
                (or_introl eq_refl)) as [Hdetected _].
    apply Hdetected. reflexivity.
Defined.

(** C4 as stated fails where the detection fails: on the signature of
    PNG with nothing after it file-type rejects, and so does
    [resolveMimeType], although the extension of the file name is looked
    up to a type. *)
Lemma resolveMimeType_of_a_failing_detection :
  let endOfStream := {| errorName := "EndOfStreamError" |} in
  let result :=
    @StreamMimeType.resolveMimeType Examples.smallTables
      "notes.txt" Examples.pngStream (Some "application/octet-stream") in
  StreamMimeType.ends Examples.pngStream = true
  /\ @fileTypeFromBuffer Examples.smallTables
       (StreamMimeType.contents Examples.pngStream) = Raised endOfStream
  /\ @lookup Examples.smallTables (@parse_ext Examples.smallTables "notes.txt")
     = Some "text/plain"
  /\ result = StreamMimeType.Failed endOfStream
  /\ ~ (exists mime readable,
          result = StreamMimeType.Resolved (mime, readable)).
Proof.
  repeat split.
  intros (mime & readable & Hresolved). vm_compute in Hresolved.
  discriminate.
Qed.

(** ** The AWS S3 adapter: stat, visibility, existence, checksum *)

Section AdapterProperties.
Import FileStorage AwsSdk AwsS3FileStorage.
Context (client : S3Client) (options : AwsS3FileStorageOptions).
Context `{PathPrefixer} `{Visibility} `{MimeLibraries} `{StringBuiltins}.

(** The request [stat], [fileExists] and [mimeType] send. *)
Let headOf (path : string) : HeadObjectCommandInput :=
  {| head_Bucket := bucket options;
     head_Key := prefixFilePath path;
     ChecksumMode := None |}.

(** [stat] fulfils exactly when HeadObject answers, with an entry built
    from the answer. *)
Lemma stat_fulfils (path : string) (entry : StatEntry) :
  stat client options path = Fulfilled entry <->
  exists response,
    sendHeadObject client (headOf path) = Answer response
    /\ entry =
       {| type := file; isFile := true; isDirectory := false;
          FileStorage.path := path;
          size := Some (Js.nullish (ContentLength response) 0%Z);
          lastModifiedMs := option_map Js.getMilliseconds (LastModified response);
          FileStorage.mimeType := ContentType response |}.
Proof.
  unfold stat. fold (headOf path).
  destruct (sendHeadObject client (headOf path)) as [response | e]; simpl.
  - split.
    + intros [= <-]. now exists response.
    + intros (r & [= <-] & ->). reflexivity.
  - split; [discriminate | intros (r & Hr & _); discriminate].
Qed.

(** C10.  Whenever [stat] succeeds, for whatever path (one that names
    an emulated directory as well), the entry is the file variant:
    type file, isFile true, isDirectory false. *)
Theorem stat_returns_the_file_variant (path : string) (entry : StatEntry) :
  stat client options path = Fulfilled entry ->
  type entry = file /\ isFile entry = true /\ isDirectory entry = false.
Proof.
  intros Hstat. apply stat_fulfils in Hstat.
  destruct Hstat as (response & _ & ->). simpl. auto.
Qed.

(** What [stat] puts in [lastModifiedMs]: the millisecond part of the
    time, not the time. *)
Lemma stat_lastModifiedMs (path : string) (entry : StatEntry)
      (response : HeadObjectOutput) (modified : Js.Date) :
  sendHeadObject client (headOf path) = Answer response ->
  LastModified response = Some modified ->
  stat client options path = Fulfilled entry ->
  lastModifiedMs entry = Some (Js.getTime modified mod 1000)%Z.
Proof.
  intros Hsend Hmod Hstat. apply stat_fulfils in Hstat.
  destruct Hstat as (r & Hr & ->). rewrite Hsend in Hr.
  injection Hr as <-. simpl. now rewrite Hmod.
Qed.

(** The millisecond part is below 1000: it is the time only within the
    first second of 1970. *)
Lemma getMilliseconds_range (d : Js.Date) :
  (0 <= Js.getMilliseconds d < 1000)%Z.
Proof. unfold Js.getMilliseconds. apply Z.mod_pos_bound. lia. Qed.

(** [list] fills [lastModifiedMs] the same way. *)
Lemma listEntry_lastModifiedMs (item : _Object) (modified : Js.Date) :
  Js.endsWith (assertDefined (Key item)) "/" = false ->
  obj_LastModified item = Some modified ->
  lastModifiedMs (listEntry (object item))
  = Some (Js.getTime modified mod 1000)%Z.
Proof.
  intros Hfile Hmod. unfold listEntry. rewrite Hfile. simpl.
  now rewrite Hmod.
Qed.

Lemma strictEq_spec (o : option string) (s : string) :
  strictEq o s = true <-> o = Some s.
Proof.
  destruct o as [x|]; simpl.
  - rewrite String.eqb_eq. split; [now intros -> | now intros [= ->]].
  - split; discriminate.
Qed.

(** The request [visibility] sends. *)
Let aclOf (path : string) : GetObjectAclCommandInput :=
  {| acl_Bucket := bucket options; acl_Key := prefixFilePath path |}.

(** C5.  The two visibility values being distinct: [visibilityToAcl]
    maps PUBLIC to public-read and PRIVATE to private and throws for
    every other value; [visibility] answers PUBLIC or PRIVATE, and
    PUBLIC exactly when the grants of the object hold a READ grant to
    the all-users group. *)
Theorem visibility_mapping (path : string) :
  PUBLIC <> PRIVATE ->
  visibilityToAcl PUBLIC = Returned "public-read"
  /\ visibilityToAcl PRIVATE = Returned "private"
  /\ (forall v, v <> PUBLIC -> v <> PRIVATE ->
                exists e, visibilityToAcl v = Thrown e)
  /\ (forall response,
        sendGetObjectAcl client (aclOf path) = Answer response ->
        exists v,
          visibility client options path = Fulfilled v
          /\ (v = PUBLIC \/ v = PRIVATE)
          /\ (v = PUBLIC <->
              exists grants grant g,
                Grants response = Some grants /\ In grant grants
                /\ grantee grant = Some g
                /\ URI g = Some "http://acs.amazonaws.com/groups/global/AllUsers"
                /\ Permission grant = Some "READ")).
Proof.
  intros Hdistinct. unfold visibilityToAcl.
  rewrite String.eqb_refl.
  repeat split.
  - destruct (String.eqb_spec PRIVATE PUBLIC) as [Heq | _];
      [now elim Hdistinct | now rewrite String.eqb_refl].
  - intros v Hpub Hpriv.
    apply String.eqb_neq in Hpub, Hpriv. rewrite Hpub, Hpriv. eauto.
  - intros response Hsend. unfold visibility. fold (aclOf path).
    rewrite Hsend. simpl.
    destruct (Grants response) as [grants|] eqn:Hgrants; simpl.
    + match goal with |- context [existsb ?f grants] => set (test := f) end.
      destruct (existsb test grants) eqn:Hex.
      * exists PUBLIC. repeat split; auto. intros _.
        apply existsb_exists in Hex. destruct Hex as (grant & Hin & Htest).
        unfold test in Htest. apply andb_true_iff in Htest.
        destruct Htest as [Huri Hperm].
        apply strictEq_spec in Huri, Hperm.
        destruct (grantee grant) as [g|] eqn:Hg; [|discriminate].
        exists grants, grant, g. auto.
      * exists PRIVATE. repeat split; auto.
        -- intros Heq. now elim Hdistinct.
        -- intros (grants' & grant & g & [= <-] & Hin & Hg & Huri & Hperm).
           assert (Htrue : existsb test grants = true).
           { apply existsb_exists. exists grant. split; [exact Hin|].
             unfold test. rewrite Hg.
             apply andb_true_iff. split; now apply strictEq_spec. }
           congruence.
    + exists PRIVATE. repeat split; auto.
      * intros Heq. now elim Hdistinct.
      * intros (grants & _ & _ & Hg & _). discriminate.
Qed.

(** A listing that throws before it yields anything passes on the
    failure of one of its requests. *)
Lemma listObjects_loop_throws (prefix_ : string) (opts : ListOptions)
      (fuel : nat) (collected : Z) (continue : bool)
      (token : option string) (e : Exception) :
  listObjects_loop client options prefix_ opts fuel collected continue token
  = ThrowG e ->
  exists request b,
    sendListObjectsV2 client request = Failure b /\ e = Backend b.
Proof.
  revert collected continue token.
  induction fuel as [|fuel IH]; intros collected continue token; simpl.
  - destruct (continue && _); discriminate.
  - destruct (continue && _); [|discriminate].
    match goal with
    | |- context [sendListObjectsV2 client ?r] =>
        destruct (sendListObjectsV2 client r) as [response | b] eqn:Hsend
    end.
    + match goal with
      | |- yieldAll ?ys _ = _ -> _ => destruct ys as [|it more]
      end; simpl.
      * apply IH.
      * discriminate.
    + intros [= <-]. eauto.
Qed.

(** The first request of [directoryExists]. *)
Let firstListing (path : string) : ListObjectsV2CommandInput :=
  {| list_Bucket := bucket options;
     Prefix_ := prefixDirectoryPath path;
     Delimiter := None;
     ContinuationToken := None;
     MaxKeys := Some 1%Z |}.

(** C6.  [fileExists] is false when HeadObject fails with a service
    exception of status 404, and is rejected with the error of the client,
    as it is, for every other failure; only such failures reject it.
    [directoryExists] is false when the listing is empty, is rejected
    with the error of the client when the listing request fails, and is
    rejected by nothing else. *)
Theorem existence_checks (path : string) :
  (forall name,
      sendHeadObject client (headOf path)
      = Failure (S3ServiceException name (Some 404%Z)) ->
      fileExists client options path = Fulfilled false)
  /\ (forall b,
        sendHeadObject client (headOf path) = Failure b ->
        (forall name, b <> S3ServiceException name (Some 404%Z)) ->
        fileExists client options path = Rejected (Backend b))
  /\ (forall e,
        fileExists client options path = Rejected e ->
        exists b, e = Backend b
                  /\ sendHeadObject client (headOf path) = Failure b
                  /\ forall name, b <> S3ServiceException name (Some 404%Z))
  /\ (forall fuel response,
        sendListObjectsV2 client (firstListing path) = Answer response ->
        Js.nullish (CommonPrefixes response) [] = [] ->
        Js.nullish (Contents response) [] = [] ->
        Js.nullish (IsTruncated response) false = false ->
        directoryExists client options path (S fuel) = Fulfilled false)
  /\ (forall fuel b,
        sendListObjectsV2 client (firstListing path) = Failure b ->
        directoryExists client options path (S fuel) = Rejected (Backend b))
  /\ (forall fuel e,
        directoryExists client options path fuel = Rejected e ->
        exists request b,
          sendListObjectsV2 client request = Failure b /\ e = Backend b).
Proof.
  unfold fileExists. fold (headOf path).
  repeat split.
  - intros name Hsend. now rewrite Hsend.
  - intros b Hsend Hother. rewrite Hsend.
    destruct b as [name [code|] | message]; simpl; try reflexivity.
    destruct (Z.eqb_spec code 404) as [-> | _]; [|reflexivity].
    now elim (Hother name).
  - destruct (sendHeadObject client (headOf path)) as [r | b]; [discriminate|].
    destruct (isNotFound b) eqn:Hnf; [discriminate|].
    intros e [= <-]. exists b. repeat split. intros name ->.
    simpl in Hnf. discriminate.
  - intros fuel response Hsend Hprefixes Hcontents Htruncated.
    unfold directoryExists, listObjects. simpl.
    fold (firstListing path). rewrite Hsend, Hprefixes, Hcontents, Htruncated.
    simpl. destruct fuel; reflexivity.
  - intros fuel b Hsend.
    unfold directoryExists, listObjects. simpl.
    fold (firstListing path). now rewrite Hsend.
  - intros fuel e. unfold directoryExists, listObjects.
    match goal with
    | |- context [listObjects_loop ?c ?o ?p ?opts fuel ?k ?sc ?t] =>
        destruct (listObjects_loop c o p opts fuel k sc t) eqn:Hloop
    end; try discriminate.
    intros [= <-]. now apply listObjects_loop_throws in Hloop.
Qed.

Lemma isSupportedAlgo_spec (algo_ : string) :
  isSupportedAlgo algo_ = true <->
  In algo_ ["SHA1"; "SHA256"; "CRC32"; "CRC32C"; "ETAG"].
Proof.
  unfold isSupportedAlgo, possibleChecksumAlgos.
  rewrite existsb_exists. split.
  - intros (x & Hin & Heq). apply String.eqb_eq in Heq. now subst.
  - intros Hin. exists algo_. split; [exact Hin | apply String.eqb_refl].
Qed.

(** The algorithm [checksum] works with when one is requested by a
    non-empty name. *)
Lemma requested_algo (requested : string) :
  requested <> EmptyString ->
  Js.or_default
    (Js.or_else (Some requested) (defaultChecksumAlgo options)) "SHA256"
  = requested.
Proof.
  intros Hne. apply String.eqb_neq in Hne.
  unfold Js.or_default, Js.or_else, Js.truthy.
  rewrite Hne. simpl. now rewrite Hne.
Qed.

(** C3, amended.  For every non-empty algorithm name: when its upper
    case form is none of SHA1, SHA256, CRC32, CRC32C and ETAG,
    [checksum] is rejected with ChecksumIsNotAvailable for that form;
    when it is one of them, [checksum] is not rejected with
    ChecksumIsNotAvailable, whatever the case of the name.  (An empty
    name counts as no name: the default algorithm is used.) *)
Theorem checksum_algorithm_support (path requested : string) :
  requested <> EmptyString ->
  let normalized := toUpperCase requested in
  let result := checksum client options path {| algo := Some requested |} in
  (~ In normalized ["SHA1"; "SHA256"; "CRC32"; "CRC32C"; "ETAG"] ->
   result = Rejected (ChecksumIsNotAvailable normalized))
  /\ (In normalized ["SHA1"; "SHA256"; "CRC32"; "CRC32C"; "ETAG"] ->
      forall a, result <> Rejected (ChecksumIsNotAvailable a)).
Proof.
  intros Hne normalized result. subst result. unfold checksum.
  cbn [algo]. rewrite (requested_algo requested Hne). fold normalized.
  split.
  - intros Hout. rewrite <- isSupportedAlgo_spec in Hout.
    apply not_true_is_false in Hout. now rewrite Hout.
  - intros Hin a. apply isSupportedAlgo_spec in Hin. rewrite Hin. simpl.
    match goal with
    | |- context [sendHeadObject client ?r] =>
        destruct (sendHeadObject client r) as [response | b]
    end; simpl; [|discriminate].
    destruct (responseField response _); discriminate.
Qed.

(** C7, amended.  HeadObject having answered: [mimeType] returns the
    stored content type when there is one and it is not empty.  When
    there is none (or an empty one): with disallowFallback it fails;
    otherwise, with the fallback method path (the default), it returns
    what the file name is looked up to, and with another method it reads
    the object again, passes the stream to [resolveMimeType] and, when
    that returns, closes the stream that comes back (a stream of the
    bytes of the object) and returns the type found; in both cases it
    fails when no type is found.  When [resolveMimeType] fails,
    [mimeType] fails with its error. *)
Theorem mimeType_resolution (path : string) (opts : MimeTypeOptions)
        (response : HeadObjectOutput) :
  sendHeadObject client (headOf path) = Answer response ->
  let stored := ContentType response in
  let absent := stored = None \/ stored = Some EmptyString in
  let allowed := Js.nullish (disallowFallback opts) false = false in
  let orFail := fun found : option string =>
    match found with
    | Some t => Fulfilled t
    | None => Rejected (Error "Unable to resolve mime-type")
    end in
  let result := mimeType client options path opts in
  (forall t, stored = Some t -> t <> EmptyString -> result = ([], Fulfilled t))
  /\ (absent -> disallowFallback opts = Some true ->
      result = ([], Rejected (Error "Mime-type not available via HeadObject")))
  /\ (absent -> allowed ->
      fallbackMethod opts = None \/ fallbackMethod opts = Some "path" ->
      result = ([], orFail (lookup path)))
  /\ (absent -> allowed ->
      forall method, fallbackMethod opts = Some method -> method <> "path" ->
      forall body,
        read client options path = Fulfilled body ->
        StreamMimeType.ends body = true
        \/ 4100 <= length (StreamMimeType.contents body) ->
        match StreamMimeType.resolveMimeType path body None with
        | StreamMimeType.Resolved (found, stream) =>
            result = ([Closed stream], orFail found)
            /\ StreamMimeType.contents stream = StreamMimeType.contents body
        | StreamMimeType.Failed e => result = ([], Rejected (Library e))
        | StreamMimeType.Unsettled => False
        end).
Proof.
  intros Hsend stored absent allowed orFail result.
  subst result. unfold mimeType, stat. fold (headOf path). rewrite Hsend.
  cbn [send await isFile negb FileStorage.mimeType]. fold stored.
  repeat split.
  - intros t -> Hne. apply String.eqb_neq in Hne.
    unfold Js.truthy. now rewrite Hne.
  - intros Habsent Hdis. rewrite Hdis. simpl.
    destruct Habsent as [-> | ->]; reflexivity.
  - intros Habsent Hallowed Hmethod. unfold allowed in Hallowed.
    rewrite Hallowed.
    assert (Hpath : (Js.nullish (fallbackMethod opts) "path" =? "path")%string = true)
      by (destruct Hmethod as [-> | ->]; reflexivity).
    rewrite Hpath. simpl.
    destruct Habsent as [-> | ->]; reflexivity.
  - intros Habsent Hallowed method Hmethod Hother body Hread Hsettles.
    unfold allowed in Hallowed. rewrite Hallowed, Hmethod. simpl.
    apply String.eqb_neq in Hother. rewrite Hother.
    unfold lookupMimeTypeFromStream. rewrite Hread.
    rewrite (resolveMimeType_settled path body None Hsettles).
    destruct (fileTypeFromBuffer _) as [[detected|] | e].
    + split; [|apply contents_replayed].
      destruct Habsent as [-> | ->]; reflexivity.
    + split; [|apply contents_replayed].
      destruct Habsent as [-> | ->]; reflexivity.
    + destruct Habsent as [-> | ->]; reflexivity.
Qed.

(** *** deleteDirectory *)

(** The entry of the delete request for a listed item. *)
Let identifierOf (it : ListItem) : ObjectIdentifier :=
  {| id_Key := itemKey it |}.

(** No request carries more than 1001 keys: a batch is flushed once it
    holds more than 1000. *)
Lemma deleteDirectory_loop_bound (items : AsyncGenerator ListItem) :
  forall bucket promises,
    length bucket <= 1000 ->
    Forall (fun command => length (Objects command) <= 1001) promises ->
    Forall (fun command => length (Objects command) <= 1001)
           (fst (deleteDirectory_loop client options items bucket promises)).
Proof.
  induction items as [it rest IH | | e |]; intros bucket promises Hb Hp;
    cbn [deleteDirectory_loop fst]; try exact Hp.
  - destruct (1000 <? length (bucket ++ [{| id_Key := itemKey it |}])) eqn:Hfull.
    + apply IH; [simpl; lia|].
      apply Forall_app. split; [exact Hp|].
      constructor; [|constructor]. simpl.
      rewrite length_app. simpl. lia.
    + apply IH; [|exact Hp]. apply Nat.ltb_ge in Hfull. exact Hfull.
  - destruct (0 <? length bucket); [|exact Hp].
    apply Forall_app. split; [exact Hp|].
    constructor; [|constructor]. simpl. lia.
Qed.

(** When the listing returns, the requests carry the listed keys, each
    once and in order. *)
Lemma deleteDirectory_loop_covers (items : AsyncGenerator ListItem) :
  forall bucket promises,
    returns items = true ->
    flat_map Objects
      (fst (deleteDirectory_loop client options items bucket promises))
    = flat_map Objects promises ++ bucket ++ map identifierOf (yielded items).
Proof.
  induction items as [it rest IH | | e |]; intros bucket promises Hret;
    cbn [deleteDirectory_loop fst returns yielded map] in *;
    try discriminate.
  - destruct (1000 <? length (bucket ++ [{| id_Key := itemKey it |}])).
    + rewrite IH by exact Hret.
      rewrite flat_map_app. simpl. rewrite app_nil_r, <- !app_assoc.
      reflexivity.
    + rewrite IH by exact Hret. rewrite <- !app_assoc. reflexivity.
  - rewrite app_nil_r. destruct (0 <? length bucket) eqn:Hsome.
    + rewrite flat_map_app. simpl. now rewrite app_nil_r.
    + apply Nat.ltb_ge in Hsome.
      destruct bucket; [now rewrite app_nil_r | simpl in Hsome; lia].
Qed.

(** What [deleteDirectory] lists. *)
Let recursiveListing (path : string) (fuel : nat) : AsyncGenerator ListItem :=
  listObjects client options path
    {| deep := true; includeSelf := true;
       includePrefixes := false; maxKeys := None |} fuel.

(** Every request of [deleteDirectory] carries at most 1001 keys, and
    when the listing returns, every listed key is in one of them. *)
Lemma deleteDirectory_batches (path : string) (fuel : nat) :
  let dispatched := fst (deleteDirectory client options path fuel) in
  (forall command, In (Dispatched command) dispatched ->
                   length (Objects command) <= 1001)
  /\ (returns (recursiveListing path fuel) = true ->
      forall it, In it (yielded (recursiveListing path fuel)) ->
      exists command,
        In (Dispatched command) dispatched
        /\ In (identifierOf it) (Objects command)).
Proof.
  unfold deleteDirectory. fold (recursiveListing path fuel).
  pose proof (deleteDirectory_loop_bound (recursiveListing path fuel)
                [] [] (Nat.le_0_l _) (Forall_nil _)) as Hbound.
  pose proof (deleteDirectory_loop_covers (recursiveListing path fuel) [] [])
    as Hcover.
  destruct (deleteDirectory_loop client options (recursiveListing path fuel) [] [])
    as [promises result].
  cbn [fst] in *. split.
  - intros command Hin. apply in_map_iff in Hin.
    destruct Hin as (c & [= ->] & Hin).
    rewrite Forall_forall in Hbound. now apply Hbound.
  - intros Hret it Hit. specialize (Hcover Hret). simpl in Hcover.
    assert (Hk : In (identifierOf it) (flat_map Objects promises)).
    { rewrite Hcover. apply in_map. exact Hit. }
    apply in_flat_map in Hk. destruct Hk as (command & Hc & Hk).
    exists command. split; [|exact Hk]. now apply in_map.
Qed.

End AdapterProperties.

Lemma stat_returns_the_file_variant_witness :
  let entry :=
    {| FileStorage.type := FileStorage.file;
       FileStorage.isFile := true; FileStorage.isDirectory := false;
       FileStorage.path := "photos/";
       FileStorage.size := Some 5%Z;
       FileStorage.lastModifiedMs := Some 123%Z;
       FileStorage.mimeType := Some "text/plain" |} in
  AwsS3FileStorage.stat (H := Examples.rootPrefixer)
    Examples.oneFile Examples.storage "photos/"
  = AwsS3FileStorage.Fulfilled entry
  /\ (FileStorage.type entry = FileStorage.file
      /\ FileStorage.isFile entry = true
      /\ FileStorage.isDirectory entry = false).
Proof.
  split.
  - reflexivity.
  - apply (@stat_returns_the_file_variant Examples.oneFile Examples.storage
             Examples.rootPrefixer "photos/").
    reflexivity.
Defined.

Lemma visibility_mapping_witness :
  @FileStorage.PUBLIC Examples.visibilityEnum
  <> @FileStorage.PRIVATE Examples.visibilityEnum
  /\ @AwsS3FileStorage.visibilityToAcl Examples.visibilityEnum "public"
     = AwsS3FileStorage.Returned "public-read".
Proof.
  split.
  - discriminate.
  - apply (@visibility_mapping Examples.oneFile Examples.storage
             Examples.rootPrefixer Examples.visibilityEnum "notes.txt").
    discriminate.
Defined.

(** C3 as stated fails for the empty name: its upper case form is none
    of the five, and [checksum] answers with the SHA256 checksum. *)
Lemma checksum_of_empty_algorithm_name :
  let result :=
    AwsS3FileStorage.checksum (H := Examples.rootPrefixer)
      (H2 := Examples.asciiStrings)
      Examples.oneFile Examples.storage "notes.txt"
      {| FileStorage.algo := Some EmptyString |} in
  AwsS3FileStorage.isSupportedAlgo (Examples.asciiUpperCase EmptyString) = false
  /\ result = AwsS3FileStorage.Fulfilled
               "LPJNul+wow4m6DsqxbninhsWHlwfp0JecwQzYpOLmCQ="
  /\ ~ (exists a,
          result = AwsS3FileStorage.Rejected
                     (AwsS3FileStorage.ChecksumIsNotAvailable a)).
Proof.
  repeat split.
  intros [a Ha]. vm_compute in Ha. discriminate.
Qed.

Lemma checksum_algorithm_support_witness :
  "etag" <> EmptyString
  /\ AwsS3FileStorage.checksum (H := Examples.rootPrefixer)
       (H2 := Examples.asciiStrings)
       Examples.oneFile Examples.storage "notes.txt"
       {| FileStorage.algo := Some "md5" |}
     = AwsS3FileStorage.Rejected (AwsS3FileStorage.ChecksumIsNotAvailable "MD5").
Proof.
  split.
  - discriminate.
  - destruct (@checksum_algorithm_support Examples.oneFile Examples.storage
                Examples.rootPrefixer Examples.asciiStrings
                "notes.txt" "md5") as [Hunsupported _].
    + discriminate.
    + apply Hunsupported. simpl. intuition discriminate.
Defined.

(** C7 as stated fails for a content type that is stored and empty: it is
    not what [mimeType] returns. *)
Lemma mimeType_of_empty_content_type :
  let result :=
    AwsS3FileStorage.mimeType (H := Examples.rootPrefixer)
      (H1 := Examples.smallTables)
      Examples.untypedFile Examples.storage "notes.txt"
      {| FileStorage.disallowFallback := None;
         FileStorage.fallbackMethod := None |} in
  (exists response,
      AwsSdk.sendHeadObject Examples.untypedFile
        {| AwsSdk.head_Bucket := "flysystem-check";
           AwsSdk.head_Key := "notes.txt";
           AwsSdk.ChecksumMode := None |} = AwsSdk.Answer response
      /\ AwsSdk.ContentType response = Some EmptyString)
  /\ result = ([], AwsS3FileStorage.Fulfilled "text/plain")
  /\ snd result <> AwsS3FileStorage.Fulfilled EmptyString.
Proof.
  repeat split.
  - eexists. split; reflexivity.
  - discriminate.
Qed.

Lemma mimeType_resolution_witness :
  AwsSdk.sendHeadObject Examples.oneFile
    {| AwsSdk.head_Bucket := "flysystem-check";
       AwsSdk.head_Key := "notes.txt";
       AwsSdk.ChecksumMode := None |} = AwsSdk.Answer Examples.storedFile
  /\ AwsS3FileStorage.mimeType (H := Examples.rootPrefixer)
       (H1 := Examples.smallTables)
       Examples.oneFile Examples.storage "notes.txt"
       {| FileStorage.disallowFallback := Some true;
          FileStorage.fallbackMethod := None |}
     = ([], AwsS3FileStorage.Fulfilled "text/plain").
Proof.
  split.
  - reflexivity.
  - destruct (@mimeType_resolution Examples.oneFile Examples.storage
                Examples.rootPrefixer Examples.smallTables "notes.txt"
                {| FileStorage.disallowFallback := Some true;
                   FileStorage.fallbackMethod := None |}
                Examples.storedFile eq_refl) as [Hstored _].
    apply Hstored; [reflexivity | discriminate].
Defined.

(** The fallback through the stream: the object is read again and the
    stream that comes back from the resolver is closed. *)
Example mimeType_through_the_stream :
  AwsS3FileStorage.mimeType (H := Examples.rootPrefixer)
    (H1 := Examples.smallTables)
    Examples.untypedFile Examples.storage "notes.txt"
    {| FileStorage.disallowFallback := Some false;
       FileStorage.fallbackMethod := Some "stream" |}
  = ([AwsS3FileStorage.Closed
        (StreamMimeType.replayed Examples.textStream)],
     AwsS3FileStorage.Fulfilled "text/plain").
Proof. reflexivity. Qed.

(** Where the detection fails, so does [mimeType], and no stream is
    closed. *)
Example mimeType_when_the_detection_fails :
  AwsS3FileStorage.mimeType (H := Examples.rootPrefixer)
    (H1 := Examples.smallTables)
    Examples.untypedSignature Examples.storage "picture.png"
    {| FileStorage.disallowFallback := None;
       FileStorage.fallbackMethod := Some "stream" |}
  = ([], AwsS3FileStorage.Rejected
           (AwsS3FileStorage.Library {| errorName := "EndOfStreamError" |})).
Proof. reflexivity. Qed.

(** C1 at a directory of 1001 objects: [deleteDirectory] sends them all
    in one request, one key more than the 1000 of the specification. *)
Theorem deleteDirectory_request_of_1001_keys :
  exists command,
    AwsS3FileStorage.deleteDirectory (H := Examples.rootPrefixer)
      Examples.crowded Examples.storage "dir" 1
    = ([AwsS3FileStorage.Dispatched command], AwsS3FileStorage.Fulfilled tt)
    /\ length (AwsSdk.Objects command) = 1001.
Proof.
  eexists. split.
  - vm_compute. reflexivity.
  - vm_compute. reflexivity.
Qed.

(** C9 at objects last modified at 1700000000123 ms: [stat] and [list]
    report 123, the millisecond part, and not the timestamp. *)
Theorem lastModifiedMs_is_the_millisecond_part :
  exists entry,
    AwsSdk.LastModified Examples.storedFile
    = Some {| Js.time := 1700000000123%Z |}
    /\ AwsS3FileStorage.stat (H := Examples.rootPrefixer)
         Examples.oneFile Examples.storage "notes.txt"
       = AwsS3FileStorage.Fulfilled entry
    /\ FileStorage.lastModifiedMs entry = Some 123%Z
    /\ FileStorage.lastModifiedMs entry <> Some 1700000000123%Z
    /\ map (fun e => (FileStorage.path e, FileStorage.lastModifiedMs e))
           (AwsS3FileStorage.yielded
              (AwsS3FileStorage.list_ (H := Examples.rootPrefixer)
                 Examples.photos Examples.storage "photos" false 3))
       = [("photos/2023", None); ("photos/a.png", Some 123%Z);
          ("photos/2024", None); ("photos/b.png", Some 123%Z)].
Proof.
  eexists. repeat split. discriminate.
Qed.

(** ** The AWS S3 adapter: listing *)

Section Generators.
Import AwsS3FileStorage.
Context {A B : Type}.

Lemma yielded_yieldAll (xs : list A) (g : AsyncGenerator A) :
  yielded (yieldAll xs g) = xs ++ yielded g.
Proof. induction xs as [|x xs IH]; simpl; [reflexivity | now rewrite IH]. Qed.

Lemma finishes_yieldAll (xs : list A) (g : AsyncGenerator A) :
  finishes (yieldAll xs g) = finishes g.
Proof. induction xs as [|x xs IH]; simpl; [reflexivity | exact IH]. Qed.

Lemma yielded_mapG (f : A -> B) (g : AsyncGenerator A) :
  yielded (mapG f g) = map f (yielded g).
Proof. induction g; simpl; [now f_equal | reflexivity ..]. Qed.

Lemma finishes_mapG (f : A -> B) (g : AsyncGenerator A) :
  finishes (mapG f g) = finishes g.
Proof. induction g; simpl; auto. Qed.

Lemma filter_map_commute (f : A -> B) (test : B -> bool) (l : list A) :
  filter test (map f l) = map f (filter (fun x => test (f x)) l).
Proof.
  induction l as [|x l IH]; simpl; [reflexivity|].
  destruct (test (f x)); simpl; now rewrite IH.
Qed.

End Generators.

Section Names.
Import S3Listing.

Lemma afterPrefix_spec (p s rest : string) :
  afterPrefix p s = Some rest -> s = (p ++ rest)%string.
Proof.
  revert s. induction p as [|a p IH]; intros s; simpl.
  - now intros [= ->].
  - destruct s as [|b s]; [discriminate|].
    destruct (Ascii.eqb_spec a b) as [-> | _]; [|discriminate].
    intros Hrest. now rewrite (IH s Hrest).
Qed.

Lemma segment_spec (s : string) :
  segment s = true ->
  exists name, s = (name ++ "/")%string /\ hasSlash name = false.
Proof.
  induction s as [|c s IH]; simpl; [discriminate|].
  destruct (Ascii.eqb_spec c "/"%char) as [-> | Hc].
  - intros Hs. apply String.eqb_eq in Hs. subst s.
    now exists EmptyString.
  - intros Hs. destruct (IH Hs) as (name & -> & Hname).
    exists (String c name). split; [reflexivity|]. simpl.
    apply Ascii.eqb_neq in Hc. now rewrite Hc.
Qed.

Lemma endsWith_slash_hasSlash (s : string) :
  Js.endsWith s "/" = true -> hasSlash s = true.
Proof.
  induction s as [|c s IH]; simpl; [discriminate|].
  intros Hs. apply orb_true_iff in Hs. destruct Hs as [Hs | Hs].
  - destruct (Ascii.eqb_spec c "/"%char) as [_ | _]; [reflexivity | discriminate].
  - rewrite (IH Hs). apply orb_true_r.
Qed.

(** A name that ends in a slash has a slash after the prefix, or is the
    prefix. *)
Lemma endsWith_slash_after (p rest : string) :
  Js.endsWith (p ++ rest)%string "/" = true ->
  hasSlash rest = false -> rest = EmptyString.
Proof.
  induction p as [|a p IH]; simpl; intros Hs Hrest.
  - apply endsWith_slash_hasSlash in Hs. congruence.
  - apply orb_true_iff in Hs. destruct Hs as [Hs | Hs]; [|now apply IH].
    destruct (Ascii.eqb_spec a "/"%char) as [_ | _]; [|discriminate].
    apply String.eqb_eq in Hs.
    destruct p; simpl in Hs; [exact Hs | discriminate].
Qed.

Lemma distinct_NoDup (names : list string) :
  distinct names = true -> NoDup names.
Proof.
  induction names as [|n names IH]; simpl; [constructor|].
  intros Hd. apply andb_true_iff in Hd. destruct Hd as [Hn Hd].
  constructor; [|now apply IH].
  intros Hin. apply negb_true_iff in Hn.
  assert (Ht : existsb (String.eqb n) names = true).
  { apply existsb_exists. exists n. split; [exact Hin | apply String.eqb_refl]. }
  congruence.
Qed.

Lemma definedNames_filter (test : AwsS3FileStorage.ListItem -> bool)
      (items : list AwsS3FileStorage.ListItem) :
  NoDup (definedNames items) -> NoDup (definedNames (filter test items)).
Proof.
  induction items as [|it items IH]; simpl; [auto|].
  intros Hnd. destruct (test it); simpl.
  - destruct (itemName it) as [n|]; simpl in *; [|now apply IH].
    inversion Hnd as [|? ? Hnot Hrest]; subst. constructor; [|now apply IH].
    intros Hin. apply Hnot. unfold definedNames in *.
    apply in_flat_map in Hin. destruct Hin as (x & Hx & Hn).
    apply in_flat_map. exists x. split; [|exact Hn].
    apply filter_In in Hx. tauto.
  - apply IH. destruct (itemName it); simpl in *; [|exact Hnd].
    now inversion Hnd.
Qed.

End Names.

Section Listing.
Import FileStorage AwsSdk AwsS3FileStorage S3Listing.
Context (client : S3Client) (options : AwsS3FileStorageOptions).
Context `{PathPrefixer}.
Variable prefix_ : string.
Variable deep_ : bool.

(** The options [list] passes to [listObjects]. *)
Let listing : ListOptions :=
  {| deep := deep_; includePrefixes := true;
     includeSelf := false; maxKeys := None |}.

(** The requests of that listing. *)
Let requestAt (token : option string) : ListObjectsV2CommandInput :=
  {| list_Bucket := bucket options;
     Prefix_ := prefix_;
     Delimiter := if deep_ then None else Some "/";
     ContinuationToken := token;
     MaxKeys := None |}.

(** Once the service reports no more, the loop is left. *)
Lemma listObjects_loop_stops (opts : ListOptions) (fuel : nat) (collected : Z)
      (token : option string) :
  listObjects_loop client options prefix_ opts fuel collected false token
  = Return.
Proof. destruct fuel; reflexivity. Qed.

(** What the loop body yields of one page. *)
Lemma page_kept (response : ListObjectsV2Output) :
  map prefix
      (filter (fun item =>
                 negb ((negb false && strictEq (Prefix item) prefix_)
                       || isUndefined (Prefix item)))
              (Js.nullish (CommonPrefixes response) []))
  ++ map object
       (filter (fun item =>
                  negb ((negb false && strictEq (Key item) prefix_)
                        || isUndefined (Key item)))
               (Js.nullish (Contents response) []))
  = filter (kept prefix_) (pageItems response).
Proof.
  unfold pageItems. rewrite filter_app, !filter_map_commute. reflexivity.
Qed.

(** [listObjects], as [list] calls it, yields the items of the pages
    served, in order, but for the listed directory itself and items
    without a name. *)
Lemma listObjects_loop_yields (fuel : nat) :
  forall collected token,
    yielded (listObjects_loop client options prefix_ listing fuel
               collected true token)
    = filter (kept prefix_)
             (flat_map pageItems (pagesServed client (requestAt token) fuel)).
Proof.
  induction fuel as [|fuel IH]; intros collected token; [reflexivity|].
  cbn [listObjects_loop pagesServed listing maxKeys andb deep
       includePrefixes includeSelf].
  fold listing. fold (requestAt token).
  destruct (sendListObjectsV2 client (requestAt token)) as [response | b];
    [|reflexivity].
  rewrite yielded_yieldAll, page_kept.
  cbn [flat_map]. rewrite filter_app. f_equal.
  destruct (Js.nullish (IsTruncated response) false).
  - rewrite IH. reflexivity.
  - now rewrite listObjects_loop_stops.
Qed.

(** With more fuel a listing that came to its end is the same. *)
Lemma listObjects_loop_fuel (opts : ListOptions) (fuel extra : nat) :
  forall collected continue token,
    finishes (listObjects_loop client options prefix_ opts fuel
                collected continue token) = true ->
    listObjects_loop client options prefix_ opts (fuel + extra)
      collected continue token
    = listObjects_loop client options prefix_ opts fuel
        collected continue token.
Proof.
  induction fuel as [|fuel IH]; intros collected continue token.
  - cbn [Nat.add listObjects_loop].
    destruct (continue && _) eqn:Hcond; [discriminate|].
    intros _. destruct extra; cbn [listObjects_loop]; now rewrite Hcond.
  - cbn [Nat.add listObjects_loop].
    destruct (continue && _); [|reflexivity].
    match goal with
    | |- context [sendListObjectsV2 client ?r] =>
        destruct (sendListObjectsV2 client r) as [response | b]
    end; [|reflexivity].
    rewrite finishes_yieldAll. intros Hfin. now rewrite IH.
Qed.

(** Whatever the options, the items yielded have a name: the
    assertions [item.Prefix!] and [item.Key!] of [list] and
    [deleteDirectory] hold. *)
Lemma listObjects_names_defined (opts : ListOptions) (fuel : nat) :
  forall collected continue token it,
    In it (yielded (listObjects_loop client options prefix_ opts fuel
                      collected continue token)) ->
    exists n, itemName it = Some n.
Proof.
  induction fuel as [|fuel IH]; intros collected continue token it;
    cbn [listObjects_loop].
  - destruct (continue && _); simpl; tauto.
  - destruct (continue && _); [|simpl; tauto].
    match goal with
    | |- context [sendListObjectsV2 client ?r] =>
        destruct (sendListObjectsV2 client r) as [response | b]
    end; [|simpl; tauto].
    rewrite yielded_yieldAll. intros Hin.
    apply in_app_or in Hin. destruct Hin as [Hin | Hin]; [|now apply IH in Hin].
    apply in_app_or in Hin. destruct Hin as [Hin | Hin];
      apply in_map_iff in Hin; destruct Hin as (item & <- & Hin);
      apply filter_In in Hin; destruct Hin as [_ Hkeep];
      apply negb_true_iff, orb_false_iff in Hkeep;
      destruct Hkeep as [_ Hdef]; simpl.
    + destruct (Prefix item) as [n|]; [now exists n | discriminate].
    + destruct (Key item) as [n|]; [now exists n | discriminate].
Qed.

End Listing.

Section ListEntries.
Import FileStorage AwsSdk AwsS3FileStorage S3Listing.
Context (client : S3Client) (options : AwsS3FileStorageOptions).
Context `{PathPrefixer}.

(** An item of a shallow listing that is an object is a file entry: a
    key that ends in a slash and has none after the prefix is the prefix
    itself, which is skipped. *)
Lemma shallow_object_is_a_file (prefix_ : string) (item : _Object) :
  kept prefix_ (object item) = true ->
  conforms false prefix_ (object item) = true ->
  isDirectory (listEntry (object item)) = false
  /\ exists name,
      Key item = Some (prefix_ ++ name)%string
      /\ name <> EmptyString /\ hasSlash name = false.
Proof.
  unfold kept, conforms. simpl.
  destruct (Key item) as [key|] eqn:Hkey; simpl; [|discriminate].
  rewrite orb_false_r. intros Hself Hchild.
  apply negb_true_iff in Hself.
  destruct (afterPrefix prefix_ key) as [name|] eqn:Hafter; [|discriminate].
  apply afterPrefix_spec in Hafter. apply negb_true_iff in Hchild.
  assert (Hname : name <> EmptyString).
  { intros ->. rewrite Hafter in Hself.
    assert (Hp : (prefix_ ++ EmptyString)%string = prefix_)
      by (clear; induction prefix_; simpl; congruence).
    rewrite Hp, String.eqb_refl in Hself. discriminate. }
  split.
  - unfold listEntry, assertDefined. rewrite ?Hkey. cbn [Js.nullish].
    destruct (Js.endsWith key "/") eqn:Hends; [|reflexivity].
    rewrite Hafter in Hends.
    now elim Hname; apply (endsWith_slash_after prefix_ name).
  - exists name. subst key. auto.
Qed.

Lemma shallow_prefix_is_a_child (prefix_ : string) (item : CommonPrefix) :
  kept prefix_ (prefix item) = true ->
  conforms false prefix_ (prefix item) = true ->
  exists name,
    Prefix item = Some (prefix_ ++ name ++ "/")%string
    /\ hasSlash name = false.
Proof.
  unfold kept, conforms. simpl.
  destruct (Prefix item) as [p|] eqn:Hp; simpl; [|discriminate].
  intros _ Hchild.
  destruct (afterPrefix prefix_ p) as [rest|] eqn:Hafter; [|discriminate].
  apply afterPrefix_spec in Hafter.
  destruct (segment_spec rest Hchild) as (name & -> & Hname).
  exists name. subst p. auto.
Qed.

(** The entry of an item that is kept of a page that conforms is the
    entry its name is listed as. *)
Lemma listEntry_listedAs (deep_ : bool) (prefix_ : string) (it : ListItem)
      (n : string) :
  conforms deep_ prefix_ it = true ->
  itemName it = Some n ->
  entryName (listEntry it) = listedAs n.
Proof.
  unfold conforms, listedAs, entryName. intros Hc Hn.
  destruct it as [item | item]; simpl in Hn, Hc; rewrite Hn in Hc.
  - destruct deep_; [discriminate|].
    destruct (afterPrefix prefix_ n) as [rest|] eqn:Hafter; [|discriminate].
    apply afterPrefix_spec in Hafter.
    destruct (segment_spec rest Hc) as (name & -> & _).
    unfold listEntry, assertDefined. rewrite Hn. cbn [Js.nullish].
    assert (Hends : Js.endsWith n "/" = true).
    { subst n. clear. induction prefix_ as [|c p IH]; simpl.
      - induction name as [|d name IHn]; simpl; [reflexivity|].
        rewrite IHn. apply orb_true_r.
      - rewrite IH. apply orb_true_r. }
    rewrite Hends. reflexivity.
  - unfold listEntry, assertDefined. rewrite Hn. cbn [Js.nullish].
    destruct (Js.endsWith n "/"); reflexivity.
Qed.

Lemma sameEntryName_spec (a b : EntryType * string) :
  sameEntryName a b = true <-> a = b.
Proof.
  destruct a as [[|] p], b as [[|] q]; unfold sameEntryName; simpl;
    rewrite ?String.eqb_eq; split; try discriminate; congruence.
Qed.

(** Names that are told apart are listed as entries that differ. *)
Lemma toldApart_NoDup (path_ : string) (names kept_ : list string) :
  toldApart path_ names = true ->
  incl kept_ names -> NoDup kept_ ->
  NoDup (map listedAs kept_).
Proof.
  intros Hapart Hincl Hnodup. unfold toldApart in Hapart.
  rewrite forallb_forall in Hapart.
  induction Hnodup as [|n rest Hnotin Hnodup IH]; simpl; [constructor|].
  constructor.
  - intros Hin. apply in_map_iff in Hin. destruct Hin as (m & Hsame & Hm).
    assert (Hn : In n names) by (apply Hincl; now left).
    assert (Hm' : In m names) by (apply Hincl; now right).
    pose proof (Hapart n Hn) as Hrow. apply andb_true_iff in Hrow.
    destruct Hrow as [Hrow _]. rewrite forallb_forall in Hrow.
    specialize (Hrow m Hm'). apply orb_true_iff in Hrow.
    destruct Hrow as [Heq | Hdiff].
    + apply String.eqb_eq in Heq. subst m. contradiction.
    + apply negb_true_iff in Hdiff.
      assert (Htrue : sameEntryName (listedAs n) (listedAs m) = true)
        by (apply sameEntryName_spec; now symmetry).
      congruence.
  - apply IH. intros x Hx. apply Hincl. now right.
Qed.

(** C8, amended.  [list] yields one entry, in order, for each named item
    the service returns but the listed directory itself, whose name it
    never yields; it compares no entries with one another.  Hence, the
    service returning every name once, rolling deeper keys up into
    common prefixes when asked to delimit and reporting no common prefix
    when not, and the prefixer telling the names served apart: no two
    entries have the same kind and path, and none has the listed path;
    with deep = false every entry is an immediate child (a key without a
    slash after the prefix, or a common prefix of one segment) and every
    directory entry comes from a common prefix, none from a marker
    object; with deep = true every entry comes from an object. *)
Theorem list_yields_each_child_once (path : string) (deep_ : bool) (fuel : nat) :
  let prefix_ := prefixDirectoryPath path in
  let served :=
    flat_map pageItems
      (pagesServed client
         {| list_Bucket := bucket options;
            Prefix_ := prefix_;
            Delimiter := if deep_ then None else Some "/";
            ContinuationToken := None;
            MaxKeys := None |} fuel) in
  let items :=
    yielded (listObjects client options path
               {| deep := deep_; includePrefixes := true;
                  includeSelf := false; maxKeys := None |} fuel) in
  let entries := yielded (list_ client options path deep_ fuel) in
  entries = map listEntry items
  /\ items = filter (kept prefix_) served
  /\ Forall (fun it => exists n, itemName it = Some n /\ n <> prefix_) items
  /\ (distinct (definedNames served) = true ->
      forallb (conforms deep_ prefix_) served = true ->
      toldApart path (definedNames served) = true ->
      NoDup (map entryName entries)
      /\ NoDup entries
      /\ Forall (fun entry => FileStorage.path entry <> path) entries
      /\ (deep_ = false ->
          Forall (fun it =>
                    match it with
                    | object item =>
                        exists name,
                          Key item = Some (prefix_ ++ name)%string
                          /\ name <> EmptyString /\ hasSlash name = false
                    | prefix item =>
                        exists name,
                          Prefix item = Some (prefix_ ++ name ++ "/")%string
                          /\ hasSlash name = false
                    end) items
          /\ Forall (fun it => isDirectory (listEntry it) = true ->
                               exists item, it = prefix item) items)
      /\ (deep_ = true ->
          Forall (fun it => exists item, it = object item) items)).
Proof.
  intros prefix_ served items entries.
  assert (Hitems : items = filter (kept prefix_) served).
  { subst items served. unfold listObjects.
    apply (listObjects_loop_yields client options prefix_ deep_ fuel 0%Z None). }
  assert (Hkept : forall it, In it items ->
                             In it served /\ kept prefix_ it = true).
  { intros it Hit. rewrite Hitems in Hit. now apply filter_In in Hit. }
  assert (Hentries : entries = map listEntry items).
  { subst entries. unfold list_. apply yielded_mapG. }
  assert (Hnamed : Forall (fun it => exists n, itemName it = Some n
                                               /\ n <> prefix_) items).
  { apply Forall_forall. intros it Hit.
    destruct (Hkept it Hit) as [_ Hk]. unfold kept in Hk.
    apply negb_true_iff, orb_false_iff in Hk. destruct Hk as [Hself Hdef].
    destruct (itemName it) as [n|]; [|discriminate].
    exists n. split; [reflexivity|]. simpl in Hself.
    now apply String.eqb_neq. }
  split; [exact Hentries | split; [exact Hitems | split; [exact Hnamed|]]].
  intros Hdistinct Hconforms Hapart. rewrite forallb_forall in Hconforms.
  assert (Hnames : map entryName entries = map listedAs (definedNames items)).
  { rewrite Hentries, map_map. clear Hentries.
    assert (Hall : forall it, In it items ->
                     exists n, itemName it = Some n
                               /\ entryName (listEntry it) = listedAs n).
    { intros it Hit. rewrite Forall_forall in Hnamed.
      destruct (Hnamed it Hit) as (n & Hn & _). exists n. split; [exact Hn|].
      apply (listEntry_listedAs deep_ prefix_); [|exact Hn].
      apply Hconforms. now apply Hkept. }
    clear -Hall. induction items as [|it items' IH]; [reflexivity|].
    destruct (Hall it (or_introl eq_refl)) as (n & Hn & Hentry).
    cbn [map definedNames flat_map]. rewrite Hn, Hentry. cbn [app map].
    f_equal. apply IH. intros x Hx. apply Hall. now right. }
  assert (Hincl : incl (definedNames items) (definedNames served)).
  { intros n Hn. unfold definedNames in *. apply in_flat_map in Hn.
    destruct Hn as (it & Hit & Hn). apply in_flat_map. exists it.
    split; [now apply Hkept | exact Hn]. }
  assert (Honce : NoDup (definedNames items)).
  { rewrite Hitems. apply definedNames_filter. now apply distinct_NoDup. }
  assert (Hnodup : NoDup (map entryName entries)).
  { rewrite Hnames. now apply (toldApart_NoDup path (definedNames served)). }
  split; [exact Hnodup | split; [now apply NoDup_map_inv in Hnodup | split]].
  - apply Forall_forall. intros entry Hentry Hpath.
    assert (Hin : In (entryName entry) (map listedAs (definedNames items)))
      by (rewrite <- Hnames; now apply in_map).
    apply in_map_iff in Hin. destruct Hin as (n & Hlisted & Hn).
    unfold toldApart in Hapart. rewrite forallb_forall in Hapart.
    pose proof (Hapart n (Hincl n Hn)) as Hrow.
    apply andb_true_iff in Hrow. destruct Hrow as [_ Hself].
    apply orb_true_iff in Hself. destruct Hself as [Hself | Hself].
    + apply String.eqb_eq in Hself. unfold definedNames in Hn.
      apply in_flat_map in Hn. destruct Hn as (it & Hit & Hn).
      rewrite Forall_forall in Hnamed.
      destruct (Hnamed it Hit) as (m & Hm & Hne). rewrite Hm in Hn.
      destruct Hn as [<- | []]. now elim Hne.
    + apply negb_true_iff, String.eqb_neq in Hself. apply Hself.
      rewrite Hlisted. exact Hpath.
  - split; intros ->.
    + split; apply Forall_forall; intros it Hit;
        destruct (Hkept it Hit) as [Hin Hk];
        pose proof (Hconforms it Hin) as Hc; destruct it as [item | item].
      * now apply shallow_prefix_is_a_child.
      * now apply shallow_object_is_a_file.
      * intros _. now exists item.
      * destruct (shallow_object_is_a_file prefix_ item Hk Hc) as [Hfile _].
        rewrite Hfile. discriminate.
    + apply Forall_forall. intros it Hit.
      destruct (Hkept it Hit) as [Hin Hk].
      pose proof (Hconforms it Hin) as Hc. destruct it as [item | item].
      * unfold kept, conforms in *. simpl in *.
        destruct (Prefix item); simpl in *; discriminate.
      * now exists item.
Qed.

End ListEntries.

Lemma list_yields_each_child_once_witness :
  let served :=
    S3Listing.pageItems Examples.shallowPage1
    ++ S3Listing.pageItems Examples.shallowPage2 in
  let entries :=
    AwsS3FileStorage.yielded
      (AwsS3FileStorage.list_ (H := Examples.rootPrefixer)
         Examples.photos Examples.storage "photos" false 3) in
  S3Listing.distinct (S3Listing.definedNames served) = true
  /\ forallb (S3Listing.conforms false "photos/") served = true
  /\ S3Listing.toldApart (H := Examples.rootPrefixer) "photos"
       (S3Listing.definedNames served) = true
  /\ NoDup entries
  /\ map S3Listing.entryName entries
     = [(FileStorage.directory, "photos/2023"); (FileStorage.file, "photos/a.png");
        (FileStorage.directory, "photos/2024"); (FileStorage.file, "photos/b.png")].
Proof.
  split; [reflexivity | split; [reflexivity | split; [reflexivity|]]].
  destruct (@list_yields_each_child_once Examples.photos Examples.storage
              Examples.rootPrefixer "photos" false 3)
    as (Hentries & _ & _ & Honce).
  split.
  - apply Honce; reflexivity.
  - rewrite Hentries. reflexivity.
Defined.

(** C8 as stated fails on keys that end in more than one slash, which
    the service lists as any other key (every name once, no common
    prefix without a delimiter, one-segment common prefixes with it).
    Without a delimiter [list] yields the directory photos/a twice, for
    photos/a/ and for photos/a//, and an entry for the listed directory
    itself, for photos//; with the delimiter it yields that entry too. *)
Lemma list_repeats_a_directory_with_doubled_slashes :
  let directoryAt := fun p =>
    {| FileStorage.type := FileStorage.directory;
       FileStorage.isFile := false; FileStorage.isDirectory := true;
       FileStorage.path := p;
       FileStorage.size := None;
       FileStorage.lastModifiedMs := None;
       FileStorage.mimeType := None |} in
  let deepEntries :=
    AwsS3FileStorage.yielded
      (AwsS3FileStorage.list_ (H := Examples.rootPrefixer)
         Examples.doubledSlashes Examples.storage "photos" true 1) in
  let shallowEntries :=
    AwsS3FileStorage.yielded
      (AwsS3FileStorage.list_ (H := Examples.rootPrefixer)
         Examples.doubledSlashes Examples.storage "photos" false 1) in
  let deepServed := S3Listing.pageItems Examples.doubledSlashesDeep in
  let shallowServed := S3Listing.pageItems Examples.doubledSlashesShallow in
  (S3Listing.distinct (S3Listing.definedNames deepServed) = true
   /\ forallb (S3Listing.conforms true "photos/") deepServed = true
   /\ S3Listing.distinct (S3Listing.definedNames shallowServed) = true
   /\ forallb (S3Listing.conforms false "photos/") shallowServed = true)
  /\ deepEntries
     = [directoryAt "photos"; directoryAt "photos/a"; directoryAt "photos/a"]
  /\ ~ NoDup deepEntries
  /\ shallowEntries = [directoryAt "photos"; directoryAt "photos/a"]
  /\ In (directoryAt "photos") shallowEntries.
Proof.
  split; [repeat split|].
  split; [reflexivity|]. split; [|split; [reflexivity | left; reflexivity]].
  intros Hnodup. inversion Hnodup as [|? ? _ Hrest]; subst.
  inversion Hrest as [|? ? Hnotin _]; subst.
  apply Hnotin. left. reflexivity.
Qed.

(** The prefixer of an empty root tells apart the names under a
    directory of which none ends in two slashes. *)
Lemma withoutTrailingSlash_one (n : string) :
  Js.endsWith n "/" = true -> Js.endsWith n "//" = false ->
  n = (Examples.withoutTrailingSlash n ++ "/")%string.
Proof.
  induction n as [|c rest IH]; [discriminate|].
  intros Hone Htwo.
  change (Js.endsWith (String c rest) "/")
    with ((String c rest =? "/")%string || Js.endsWith rest "/") in Hone.
  change (Js.endsWith (String c rest) "//")
    with ((String c rest =? "//")%string || Js.endsWith rest "//") in Htwo.
  apply orb_false_iff in Htwo. destruct Htwo as [Hnot Htwo].
  destruct rest as [|d rest'].
  - simpl in Hone.
    destruct (Ascii.eqb_spec c "/"%char) as [-> | _];
      [reflexivity | simpl in Hone; discriminate].
  - assert (Hrest : Js.endsWith (String d rest') "/" = true).
    { apply orb_true_iff in Hone. destruct Hone as [Hone | Hone];
        [|exact Hone].
      apply String.eqb_eq in Hone. discriminate. }
    specialize (IH Hrest Htwo).
    change (Examples.withoutTrailingSlash (String c (String d rest')))
      with (match Examples.withoutTrailingSlash (String d rest') with
            | EmptyString => if (c =? "/")%char then EmptyString
                             else String c EmptyString
            | String a k => String c (String a k)
            end).
    destruct (Examples.withoutTrailingSlash (String d rest')) as [|a k].
    + simpl in IH. rewrite IH in *.
      destruct (Ascii.eqb_spec c "/"%char) as [-> | _];
        [discriminate | reflexivity].
    + rewrite IH at 1. reflexivity.
Qed.

Lemma string_length_app (a b : string) :
  String.length (a ++ b) = String.length a + String.length b.
Proof. induction a as [|c a IH]; simpl; [reflexivity | now rewrite IH]. Qed.

Lemma rootPrefixer_tells_apart (path : string) (names : list string) :
  (forall n, In n names ->
             Js.endsWith n "//" = false
             /\ exists rest, n = (path ++ "/" ++ rest)%string) ->
  S3Listing.toldApart (H := Examples.rootPrefixer) path names = true.
Proof.
  intros Hnames. unfold S3Listing.toldApart.
  apply forallb_forall. intros a Ha. apply andb_true_iff. split.
  - apply forallb_forall. intros b Hb.
    destruct (String.eqb_spec a b) as [-> | Hne]; [reflexivity|]. simpl.
    apply negb_true_iff.
    destruct (S3Listing.sameEntryName _ _) eqn:Hsame; [|reflexivity].
    elim Hne. unfold S3Listing.sameEntryName, S3Listing.listedAs in Hsame.
    destruct (Hnames a Ha) as [Ha2 _], (Hnames b Hb) as [Hb2 _].
    destruct (Js.endsWith a "/") eqn:Ha1, (Js.endsWith b "/") eqn:Hb1;
      simpl in Hsame; try discriminate; apply String.eqb_eq in Hsame.
    + rewrite (withoutTrailingSlash_one a Ha1 Ha2),
        (withoutTrailingSlash_one b Hb1 Hb2).
      now rewrite Hsame.
    + exact Hsame.
  - change (@FileStorage.prefixDirectoryPath Examples.rootPrefixer path)
      with (path ++ "/")%string.
    destruct (String.eqb_spec a (path ++ "/")) as [-> | Hne];
      [reflexivity|]. simpl. apply negb_true_iff, String.eqb_neq.
    destruct (Hnames a Ha) as [Ha2 [rest Hrest]].
    unfold S3Listing.listedAs.
    destruct (Js.endsWith a "/") eqn:Ha1; simpl; intros Hpath.
    + apply Hne. rewrite (withoutTrailingSlash_one a Ha1 Ha2).
      now rewrite Hpath.
    + assert (Hlen : String.length a = String.length path)
        by now rewrite Hpath.
      rewrite Hrest, !string_length_app in Hlen. simpl in Hlen. lia.
Qed.

(** That listing comes to its end within the three requests. *)
Example list_photos_finishes :
  AwsS3FileStorage.finishes
    (AwsS3FileStorage.list_ (H := Examples.rootPrefixer)
       Examples.photos Examples.storage "photos" false 3) = true.
Proof. reflexivity. Qed.

(** The deep listing of the same directory: the markers and the files,
    each once, and no common prefix. *)
Example list_photos_deep :
  map (fun entry => (FileStorage.type entry, FileStorage.path entry))
      (AwsS3FileStorage.yielded
         (AwsS3FileStorage.list_ (H := Examples.rootPrefixer)
            Examples.photos Examples.storage "photos" true 3))
  = [(FileStorage.directory, "photos/2023");
     (FileStorage.file, "photos/2023/x.png");
     (FileStorage.file, "photos/2024/y.png");
     (FileStorage.file, "photos/a.png");
     (FileStorage.file, "photos/b.png")].
Proof. reflexivity. Qed.

(** The adapter on the small buckets: existence checks, and the checksum
    by the entity tag, asked for in lower case. *)
Example fileExists_in_an_empty_bucket :
  AwsS3FileStorage.fileExists (H := Examples.rootPrefixer)
    Examples.emptyBucket Examples.storage "notes.txt"
  = AwsS3FileStorage.Fulfilled false.
Proof. reflexivity. Qed.

Example directoryExists_in_an_empty_bucket :
  AwsS3FileStorage.directoryExists (H := Examples.rootPrefixer)
    Examples.emptyBucket Examples.storage "photos" 1
  = AwsS3FileStorage.Fulfilled false.
Proof. reflexivity. Qed.

Example directoryExists_of_photos :
  AwsS3FileStorage.directoryExists (H := Examples.rootPrefixer)
    Examples.photos Examples.storage "photos" 1
  = AwsS3FileStorage.Fulfilled true.
Proof. reflexivity. Qed.

Example fileExists_without_connection :
  AwsS3FileStorage.fileExists (H := Examples.rootPrefixer)
    Examples.offline Examples.storage "notes.txt"
  = AwsS3FileStorage.Rejected
      (AwsS3FileStorage.Backend (AwsSdk.OtherError "offline")).
Proof. reflexivity. Qed.

Example checksum_by_etag :
  AwsS3FileStorage.checksum (H := Examples.rootPrefixer)
    (H2 := Examples.asciiStrings)
    Examples.oneFile Examples.storage "notes.txt"
    {| FileStorage.algo := Some "etag" |}
  = AwsS3FileStorage.Fulfilled "5d41402abc4b2a76b9719d911017c592".
Proof. reflexivity. Qed.

Example visibility_of_the_public_file :
  AwsS3FileStorage.visibility (H := Examples.rootPrefixer)
    (H0 := Examples.visibilityEnum)
    Examples.oneFile Examples.storage "notes.txt"
  = AwsS3FileStorage.Fulfilled "public".
Proof. reflexivity. Qed.

(** * Further properties *)

(** ** concatUint8Arrays and streamHead *)

Section StreamWindow.
Import StreamMimeType.

(** X1.  [concatUint8Arrays] returns the chunks joined in order: as long
    as all of them together, with every chunk at the offset where the
    chunks before it end. *)
Theorem concatUint8Arrays_places_each_chunk (input : list Uint8Array) :
  concatUint8Arrays input = concat input
  /\ length (concatUint8Arrays input)
     = fold_right (fun a n => byteLength a + n) 0 input
  /\ forall before i after,
      input = before ++ i :: after ->
      firstn (byteLength i)
             (skipn (length (concat before)) (concatUint8Arrays input)) = i.
Proof.
  rewrite concatUint8Arrays_concat. split; [reflexivity | split].
  - induction input as [|a input IH]; simpl; [reflexivity|].
    rewrite length_app, IH. reflexivity.
  - intros before i after ->. unfold byteLength.
    rewrite concat_app. simpl.
    rewrite skipn_app, skipn_all, Nat.sub_diag. simpl.
    rewrite firstn_app, firstn_all, Nat.sub_diag. simpl.
    apply app_nil_r.
Qed.

(** The window, chunk by chunk: the chunks buffered are those before
    the first chunk that brings the count to [size], and that chunk. *)
Lemma headChunks_window (size : nat) (cs : list Uint8Array) :
  forall seen,
    seen < size ->
    reaches size seen cs = true ->
    exists before last rest,
      cs = before ++ last :: rest
      /\ headChunks size seen cs = before ++ [last]
      /\ seen + length (concat before) < size
      /\ size <= seen + length (concat before) + length last.
Proof.
  induction cs as [|c cs IH]; intros seen Hseen; simpl; [discriminate|].
  unfold byteLength.
  destruct (size <=? seen + length c) eqn:Hc; simpl.
  - intros _. exists [], c, cs. simpl. apply Nat.leb_le in Hc.
    repeat split; lia.
  - intros Hr. apply Nat.leb_gt in Hc.
    destruct (IH _ Hc Hr) as (before & last & rest & Hcs & Hhead & Hlt & Hge).
    exists (c :: before), last, rest. simpl. rewrite length_app.
    repeat split; [now rewrite Hcs | now rewrite Hhead | lia | lia].
Qed.

(** Chunks after the window do not change it. *)
Lemma headChunks_app (size : nat) (cs more : list Uint8Array) :
  forall seen,
    reaches size seen cs = true ->
    headChunks size seen (cs ++ more) = headChunks size seen cs
    /\ reaches size seen (cs ++ more) = true.
Proof.
  induction cs as [|c cs IH]; intros seen; simpl; [discriminate|].
  destruct (size <=? seen + byteLength c); simpl; [auto|].
  intros Hr. destruct (IH _ Hr) as [Hhead Hreach].
  now rewrite Hhead, Hreach.
Qed.

(** X2.  For a stream that carries at least [size] bytes, [size]
    being positive and no more than the high-water mark, [streamHead]
    resolves with the bytes of the leading chunks up to and including
    the first chunk at which the count reaches [size] (chunks without
    bytes apart): at least [size] bytes, fewer than [size] without that
    last chunk, and a prefix of what the stream carries; the stream that
    comes with it carries the bytes of the input. *)
Theorem streamHead_buffers_the_first_window (stream : Readable) (size : nat) :
  0 < size <= highWaterMark ->
  size <= length (contents stream) ->
  exists before last rest readable,
    passedThrough (chunks stream) = before ++ last :: rest
    /\ streamHead stream size = Some (concat before ++ last, readable)
    /\ length (concat before) < size <= length (concat before ++ last)
    /\ contents stream = (concat before ++ last) ++ concat rest
    /\ contents readable = contents stream.
Proof.
  intros [Hsize _] Hlen. unfold contents in *.
  rewrite <- concat_passedThrough in Hlen.
  assert (Hreach : reaches size 0 (passedThrough (chunks stream)) = true).
  { rewrite reaches_total by exact Hsize. now apply Nat.leb_le. }
  destruct (headChunks_window size (passedThrough (chunks stream)) 0
              Hsize Hreach)
    as (before & last & rest & Hcs & Hhead & Hlt & Hge).
  exists before, last, rest, (replayed stream).
  rewrite streamHead_spec, Hreach, Hhead. simpl.
  rewrite concat_app. simpl. rewrite app_nil_r.
  repeat split;
    [exact Hcs | exact Hlt | rewrite length_app; lia | |
     apply concat_passedThrough].
  rewrite <- concat_passedThrough, Hcs, concat_app. simpl.
  now rewrite app_assoc.
Qed.

(** X3.  A stream that carries fewer than [size] bytes, [size] being no
    more than the high-water mark: when it ends, [streamHead] resolves
    with all of its bytes and a stream that carries them; when it does
    not end, the promise never settles. *)
Theorem streamHead_of_a_short_stream (stream : Readable) (size : nat) :
  size <= highWaterMark ->
  length (contents stream) < size ->
  streamHead stream size
  = if ends stream then Some (contents stream, replayed stream) else None.
Proof.
  intros _ Hlen. unfold contents in *.
  rewrite <- concat_passedThrough in Hlen.
  assert (Hreach : reaches size 0 (passedThrough (chunks stream)) = false).
  { rewrite reaches_total by lia. apply Nat.leb_gt. exact Hlen. }
  rewrite streamHead_spec, Hreach. simpl.
  rewrite (headChunks_all size 0 _ Hreach). now rewrite concat_passedThrough.
Qed.

End StreamWindow.

Section SniffedWindow.
Import StreamMimeType.
Context `{MimeLibraries}.

(** X4.  What follows the first 4100-byte window has no part in the
    outcome: a stream whose chunks [cs] carry 4100 bytes resolves to the
    same type, or fails with the same error of the detection, whatever
    chunks follow them and whether it ends or not; and it does settle. *)
Theorem resolveMimeType_reads_only_the_window
        (filename : string) (cs more : list Uint8Array) (e e' : bool)
        (fallback : option string) :
  4100 <= length (concat cs) ->
  typeOf (resolveMimeType filename {| chunks := cs ++ more; ends := e |}
            fallback)
  = typeOf (resolveMimeType filename {| chunks := cs; ends := e' |} fallback)
  /\ typeOf (resolveMimeType filename {| chunks := cs; ends := e' |} fallback)
     <> Unsettled.
Proof.
  intros Hlen. unfold resolveMimeType.
  assert (Hreach : reaches 4100 0 (passedThrough cs) = true).
  { rewrite reaches_total, concat_passedThrough by lia. now apply Nat.leb_le. }
  destruct (headChunks_app 4100 (passedThrough cs) (passedThrough more) 0 Hreach)
    as [Hhead Hreach'].
  rewrite !streamHead_spec. cbn [chunks ends].
  unfold passedThrough in *. rewrite filter_app, Hreach, Hreach', Hhead.
  cbn [orb].
  destruct (fileTypeFromBuffer _) as [[mime|] | failure]; simpl;
    split; (reflexivity || discriminate).
Qed.

End SniffedWindow.

Lemma streamHead_buffers_the_first_window_witness :
  0 < 3 <= StreamMimeType.highWaterMark
  /\ 3 <= length (StreamMimeType.contents Examples.pngStream)
  /\ exists before last rest readable,
      StreamMimeType.passedThrough (StreamMimeType.chunks Examples.pngStream)
      = before ++ last :: rest
      /\ StreamMimeType.streamHead Examples.pngStream 3
         = Some (concat before ++ last, readable)
      /\ length (concat before) < 3 <= length (concat before ++ last)
      /\ StreamMimeType.contents Examples.pngStream
         = (concat before ++ last) ++ concat rest
      /\ StreamMimeType.contents readable
         = StreamMimeType.contents Examples.pngStream.
Proof.
  assert (Hsize : 0 < 3 <= StreamMimeType.highWaterMark)
    by (unfold StreamMimeType.highWaterMark; lia).
  split; [exact Hsize | split; [simpl; lia|]].
  apply (streamHead_buffers_the_first_window Examples.pngStream 3 Hsize).
  simpl; lia.
Defined.

(** On that stream the window of three bytes ends with the second chunk. *)
Example streamHead_of_the_png_stream :
  StreamMimeType.streamHead Examples.pngStream 3
  = Some ([x89; x50; x4e; x47; x0d; x0a], Examples.pngStream).
Proof. reflexivity. Qed.

Lemma resolveMimeType_reads_only_the_window_witness :
  let cs := [[x89; x50; x4e; x47]; repeat x00 4096] in
  4100 <= length (concat cs)
  /\ StreamMimeType.typeOf
       (@StreamMimeType.resolveMimeType Examples.smallTables "a.bin"
          {| StreamMimeType.chunks := cs ++ [[x01]; [x02]];
             StreamMimeType.ends := false |} None)
     = StreamMimeType.typeOf
         (@StreamMimeType.resolveMimeType Examples.smallTables "a.bin"
            {| StreamMimeType.chunks := cs; StreamMimeType.ends := true |} None).
Proof.
  split; [vm_compute; lia|].
  apply (@resolveMimeType_reads_only_the_window Examples.smallTables).
  vm_compute. lia.
Defined.

Lemma streamHead_of_a_short_stream_witness :
  4100 <= StreamMimeType.highWaterMark
  /\ length (StreamMimeType.contents Examples.textStream) < 4100
  /\ StreamMimeType.streamHead Examples.textStream 4100
     = Some ([x68; x65; x6c; x6c; x6f],
             StreamMimeType.replayed Examples.textStream).
Proof.
  assert (Hsize : 4100 <= StreamMimeType.highWaterMark)
    by (unfold StreamMimeType.highWaterMark; lia).
  split; [exact Hsize | split; [simpl; lia|]].
  rewrite (streamHead_of_a_short_stream Examples.textStream 4100 Hsize);
    [reflexivity | simpl; lia].
Defined.

(** ** checksum: the entity tag without its quotes, the field of each
    algorithm, the default *)

Section Unquote.
Import AwsS3FileStorage JsString.

Lemma beforeClosingQuote_intro (body : string) :
  anyChar lineTerminator body = false ->
  beforeClosingQuote (body ++ String quote EmptyString)%string = Some body.
Proof.
  induction body as [|c body IH]; simpl; [reflexivity|].
  intros Hbody. apply orb_false_iff in Hbody. destruct Hbody as [Hc Hbody].
  rewrite Hc, (IH Hbody). destruct body; reflexivity.
Qed.

Lemma beforeClosingQuote_elim (s body : string) :
  beforeClosingQuote s = Some body ->
  s = (body ++ String quote EmptyString)%string
  /\ anyChar lineTerminator body = false.
Proof.
  revert body. induction s as [|c s IH]; intros body; [discriminate|].
  destruct s as [|d s].
  - simpl. destruct (Ascii.eqb_spec c quote) as [-> | _]; [|discriminate].
    intros [= <-]. auto.
  - change (beforeClosingQuote (String c (String d s)))
      with (if lineTerminator c then None
            else option_map (String c) (beforeClosingQuote (String d s))).
    destruct (lineTerminator c) eqn:Hc; [discriminate|].
    destruct (beforeClosingQuote (String d s)) as [inner|]; [|discriminate].
    intros [= <-]. destruct (IH inner eq_refl) as [Hs Hinner].
    simpl. rewrite Hc, Hinner, <- Hs. auto.
Qed.

(** X5.  [unquote] takes one pair of surrounding quotes off: a value
    that is a quote, a body that is not empty and has no line break, and
    a quote, gives the body. *)
Theorem unquote_of_a_quoted_value (body : string) :
  body <> EmptyString ->
  anyChar lineTerminator body = false ->
  unquote (String quote (body ++ String quote EmptyString)) = body.
Proof.
  intros Hne Hbody. unfold unquote.
  rewrite Ascii.eqb_refl, (beforeClosingQuote_intro body Hbody).
  apply String.eqb_neq in Hne. unfold Js.truthy. now rewrite Hne.
Qed.

(** X6.  [unquote] does nothing else: its result is the value itself,
    or the value is that result, not empty and without a line break,
    between two quotes. *)
Theorem unquote_takes_off_quotes_only (s : string) :
  unquote s = s
  \/ (s = String quote (unquote s ++ String quote EmptyString)
      /\ unquote s <> EmptyString
      /\ anyChar lineTerminator (unquote s) = false).
Proof.
  unfold unquote. destruct s as [|c rest]; [now left|].
  destruct (Ascii.eqb_spec c quote) as [-> | _]; [|now left].
  destruct (beforeClosingQuote rest) as [body|] eqn:Hrest; [|now left].
  unfold Js.truthy.
  destruct (String.eqb_spec body EmptyString) as [_ | Hne]; [now left|].
  right. simpl. apply beforeClosingQuote_elim in Hrest.
  destruct Hrest as [-> Hbody]. auto.
Qed.

End Unquote.

Lemma unquote_of_a_quoted_value_witness :
  "d41d8" <> EmptyString
  /\ JsString.anyChar AwsS3FileStorage.lineTerminator "d41d8" = false
  /\ AwsS3FileStorage.unquote (Examples.quoted "d41d8") = "d41d8".
Proof.
  split; [discriminate | split; [reflexivity|]].
  apply (unquote_of_a_quoted_value "d41d8"); [discriminate | reflexivity].
Defined.

(** Two quotes with nothing between them, and a quoted value with a
    line break in it, stay as they are. *)
Example unquote_leaves_empty_quotes :
  AwsS3FileStorage.unquote (Examples.quoted EmptyString)
  = Examples.quoted EmptyString
  /\ AwsS3FileStorage.unquote (Examples.quoted (String "010" "x"))
     = Examples.quoted (String "010" "x").
Proof. split; reflexivity. Qed.

Section ChecksumFields.
Import FileStorage AwsSdk AwsS3FileStorage.
Context (client : S3Client) (options : AwsS3FileStorageOptions).
Context `{PathPrefixer} `{StringBuiltins}.

(** X7.  For a non-empty algorithm name whose upper case form is one of
    the five, [checksum] sends one HeadObject request, with the checksum
    mode enabled but for ETAG, and answers from the field of that
    algorithm: the field without its quotes, an error that names the
    algorithm when the answer lacks the field, and the failure of the
    client when the request fails. *)
Theorem checksum_reads_the_field_of_the_algorithm
        (path requested normalized : string)
        (field : HeadObjectOutput -> option string) (mode : option string) :
  requested <> EmptyString ->
  toUpperCase requested = normalized ->
  In (normalized, field, mode)
     [("SHA1", ChecksumSHA1, Some "ENABLED");
      ("SHA256", ChecksumSHA256, Some "ENABLED");
      ("CRC32", ChecksumCRC32, Some "ENABLED");
      ("CRC32C", ChecksumCRC32C, Some "ENABLED");
      ("ETAG", ETag, None)] ->
  checksum client options path {| algo := Some requested |}
  = match sendHeadObject client
            {| head_Bucket := bucket options;
               head_Key := prefixFilePath path;
               ChecksumMode := mode |} with
    | Answer response =>
        match field response with
        | Some value => Fulfilled (unquote value)
        | None =>
            Rejected (Error ("Unable to retrieve checksum with algo "
                             ++ normalized)%string)
        end
    | Failure b => Rejected (Backend b)
    end.
Proof.
  intros Hne Hupper Hin. unfold checksum. cbn [algo].
  rewrite (requested_algo options requested Hne), Hupper.
  simpl in Hin.
  destruct Hin as [Hin | [Hin | [Hin | [Hin | [Hin | []]]]]];
    injection Hin as <- <- <-; cbn;
    match goal with
    | |- context [sendHeadObject client ?r] =>
        destruct (sendHeadObject client r) as [response | b]
    end; reflexivity.
Qed.

(** X8.  Without an algorithm name, or with an empty one, [checksum]
    is [checksum] for the default algorithm of the adapter, and for
    SHA256 when the adapter has none (or an empty one). *)
Theorem checksum_without_algorithm (path : string) :
  let fallback := Js.or_default (defaultChecksumAlgo options) "SHA256" in
  checksum client options path {| algo := None |}
  = checksum client options path {| algo := Some fallback |}
  /\ checksum client options path {| algo := Some EmptyString |}
     = checksum client options path {| algo := Some fallback |}.
Proof.
  assert (Halgo : forall a,
             a = None \/ a = Some EmptyString ->
             Js.or_default (Js.or_else a (defaultChecksumAlgo options)) "SHA256"
             = Js.or_default
                 (Js.or_else
                    (Some (Js.or_default (defaultChecksumAlgo options) "SHA256"))
                    (defaultChecksumAlgo options)) "SHA256").
  { intros a Ha. unfold Js.or_default, Js.or_else, Js.truthy.
    destruct (defaultChecksumAlgo options) as [d|];
      [destruct (d =? EmptyString)%string eqn:Hd|];
      destruct Ha as [-> | ->]; simpl; rewrite ?Hd; simpl; rewrite ?Hd;
      reflexivity. }
  unfold checksum. cbn [algo].
  rewrite (Halgo None), (Halgo (Some EmptyString)) by auto.
  split; reflexivity.
Qed.

End ChecksumFields.

Lemma checksum_reads_the_field_of_the_algorithm_witness :
  "sha256" <> EmptyString
  /\ Examples.asciiUpperCase "sha256" = "SHA256"
  /\ AwsS3FileStorage.checksum (H := Examples.rootPrefixer)
       (H2 := Examples.asciiStrings)
       Examples.oneFile Examples.storage "notes.txt"
       {| FileStorage.algo := Some "sha256" |}
     = AwsS3FileStorage.Fulfilled "LPJNul+wow4m6DsqxbninhsWHlwfp0JecwQzYpOLmCQ=".
Proof.
  split; [discriminate | split; [reflexivity|]].
  rewrite (@checksum_reads_the_field_of_the_algorithm
             Examples.oneFile Examples.storage Examples.rootPrefixer
             Examples.asciiStrings "notes.txt" "sha256" "SHA256"
             AwsSdk.ChecksumSHA256 (Some "ENABLED"));
    [reflexivity | discriminate | reflexivity | right; left; reflexivity].
Defined.

(** ** deleteDirectory: the batches, the empty directory, a listing that
    fails, the outcome *)

Section DeleteDirectory.
Import FileStorage AwsSdk AwsS3FileStorage.
Context (client : S3Client) (options : AwsS3FileStorageOptions).
Context `{PathPrefixer}.

(** The entry of the delete request for a listed item. *)
Let entryOf (it : ListItem) : ObjectIdentifier := {| id_Key := itemKey it |}.

(** The requests of one run of the loop: those flushed in the loop hold
    1001 keys each; the one flushed after it, if any, holds what is left,
    1 to 1000 keys; nothing is flushed after a listing that did not
    return. *)
Lemma deleteDirectory_loop_shape (items : AsyncGenerator ListItem) :
  forall bucket promises,
    length bucket <= 1000 ->
    exists full last,
      fst (deleteDirectory_loop client options items bucket promises)
      = promises ++ full ++ last
      /\ Forall (fun command => length (Objects command) = 1001) full
      /\ Forall (fun command => 1 <= length (Objects command) <= 1000) last
      /\ length last <= 1
      /\ (returns items = false -> last = []).
Proof.
  induction items as [it rest IH | | e |]; intros bucket promises Hb;
    cbn [deleteDirectory_loop fst returns].
  - destruct (1000 <? length (bucket ++ [{| id_Key := itemKey it |}])) eqn:Hfull.
    + destruct (IH [] (promises ++ [flush options
                                      (bucket ++ [{| id_Key := itemKey it |}])]))
        as (full & last & Hfst & Hf & Hl & Hone & Hret); [simpl; lia|].
      exists (flush options (bucket ++ [{| id_Key := itemKey it |}]) :: full), last.
      rewrite Hfst, <- app_assoc. simpl.
      repeat split; auto. constructor; [|exact Hf].
      apply Nat.ltb_lt in Hfull. simpl.
      rewrite length_app in *. simpl in *. lia.
    + apply Nat.ltb_ge in Hfull. now apply IH.
  - destruct (0 <? length bucket) eqn:Hsome.
    + exists [], [flush options bucket]. simpl.
      apply Nat.ltb_lt in Hsome.
      split; [reflexivity | split; [constructor | split; [|split]]].
      * constructor; [simpl; lia | constructor].
      * lia.
      * discriminate.
    + exists [], []. simpl. rewrite app_nil_r. repeat split; auto.
  - exists [], []. simpl. rewrite app_nil_r. repeat split; auto.
  - exists [], []. simpl. rewrite app_nil_r. repeat split; auto.
Qed.

(** After a listing that did not return, the keys listed since the last
    flush are in no request. *)
Lemma deleteDirectory_loop_leftover (items : AsyncGenerator ListItem) :
  forall bucket promises,
    length bucket <= 1000 ->
    returns items = false ->
    exists leftover,
      flat_map Objects promises ++ bucket ++ map entryOf (yielded items)
      = flat_map Objects
          (fst (deleteDirectory_loop client options items bucket promises))
        ++ leftover
      /\ length leftover <= 1000.
Proof.
  induction items as [it rest IH | | e |]; intros bucket promises Hb Hret;
    cbn [deleteDirectory_loop fst returns yielded map] in *;
    try discriminate.
  - destruct (1000 <? length (bucket ++ [{| id_Key := itemKey it |}])) eqn:Hfull.
    + destruct (IH [] (promises ++ [flush options
                                      (bucket ++ [{| id_Key := itemKey it |}])]))
        as (leftover & Heq & Hlen); [simpl; lia | exact Hret |].
      exists leftover. split; [|exact Hlen].
      rewrite <- Heq, flat_map_app. simpl.
      rewrite app_nil_r, <- !app_assoc. reflexivity.
    + apply Nat.ltb_ge in Hfull.
      destruct (IH (bucket ++ [{| id_Key := itemKey it |}]) promises Hfull Hret)
        as (leftover & Heq & Hlen).
      exists leftover. split; [|exact Hlen].
      rewrite <- Heq, <- !app_assoc. reflexivity.
  - exists bucket. rewrite app_nil_r. auto.
  - exists bucket. rewrite app_nil_r. auto.
Qed.

(** The outcome of the loop: the error of the listing, or what
    [Promise.all] makes of the requests. *)
Lemma deleteDirectory_loop_outcome (items : AsyncGenerator ListItem) :
  forall bucket promises,
    snd (deleteDirectory_loop client options items bucket promises)
    = match thrown items with
      | Some e => Rejected e
      | None =>
          if returns items
          then all client
                 (fst (deleteDirectory_loop client options items bucket promises))
          else Pending
      end.
Proof.
  induction items as [it rest IH | | e |]; intros bucket promises;
    cbn [deleteDirectory_loop fst snd returns thrown]; try reflexivity.
  destruct (1000 <? length (bucket ++ [{| id_Key := itemKey it |}]));
    apply IH.
Qed.

(** [Promise.all] is fulfilled when every request is answered, and
    rejected only with the failure of one of them. *)
Lemma all_outcome (promises : list DeleteObjectsCommandInput) :
  (all client promises = Fulfilled tt <->
   forall command, In command promises ->
                   sendDeleteObjects client command = Answer tt)
  /\ (forall e, all client promises = Rejected e ->
                exists command b,
                  In command promises
                  /\ sendDeleteObjects client command = Failure b
                  /\ e = Backend b)
  /\ all client promises <> Pending.
Proof.
  induction promises as [|command promises (IHok & IHfail & IHpending)];
    simpl.
  - repeat split; try discriminate; tauto.
  - destruct (sendDeleteObjects client command) as [[] | b] eqn:Hsend; simpl.
    + repeat split.
      * intros Hall c [<- | Hin]; [exact Hsend | now apply IHok].
      * intros Hall. apply IHok. intros c Hin. apply Hall. now right.
      * intros e He. destruct (IHfail e He) as (c & b & Hin & Hc & ->).
        exists c, b. auto.
      * exact IHpending.
    + repeat split; try discriminate.
      * intros Hall. specialize (Hall command (or_introl eq_refl)).
        congruence.
      * intros e [= <-]. exists command, b. auto.
Qed.

(** The listing [deleteDirectory] goes through. *)
Let listingOf (path : string) (fuel : nat) : AsyncGenerator ListItem :=
  listObjects client options path
    {| deep := true; includeSelf := true;
       includePrefixes := false; maxKeys := None |} fuel.


(** X10.  A directory under which nothing is listed: [deleteDirectory]
    sends no delete request and is fulfilled. *)
Theorem deleteDirectory_of_nothing (path : string) (fuel : nat) :
  returns (listingOf path fuel) = true ->
  yielded (listingOf path fuel) = [] ->
  deleteDirectory client options path fuel = ([], Fulfilled tt).
Proof.
  intros Hret Hnone. unfold deleteDirectory. fold (listingOf path fuel).
  destruct (listingOf path fuel); try discriminate. reflexivity.
Qed.

(** X11.  When the listing throws, and the requests sent by then are
    answered, [deleteDirectory] is rejected with what the listing
    throws; these requests hold 1001 keys each, and the keys listed
    since the last of them, up to 1000, are in no request. *)
Theorem deleteDirectory_when_the_listing_throws
        (path : string) (fuel : nat) (e : Exception) :
  thrown (listingOf path fuel) = Some e ->
  (forall command,
      In (Dispatched command) (fst (deleteDirectory client options path fuel)) ->
      sendDeleteObjects client command = Answer tt) ->
  exists full leftover,
    deleteDirectory client options path fuel
    = (map Dispatched full, Rejected e)
    /\ Forall (fun command => length (Objects command) = 1001) full
    /\ map entryOf (yielded (listingOf path fuel))
       = flat_map Objects full ++ leftover
    /\ length leftover <= 1000.
Proof.
  intros Hthrown _. unfold deleteDirectory. fold (listingOf path fuel).
  assert (Hret : returns (listingOf path fuel) = false).
  { clear -Hthrown. induction (listingOf path fuel); simpl in *;
      try reflexivity; [now apply IHa | discriminate]. }
  destruct (deleteDirectory_loop_shape (listingOf path fuel) [] []
              (Nat.le_0_l _))
    as (full & last & Hfst & Hfull & _ & _ & Hnone).
  destruct (deleteDirectory_loop_leftover (listingOf path fuel) [] []
              (Nat.le_0_l _) Hret) as (leftover & Hleft & Hlen).
  pose proof (deleteDirectory_loop_outcome (listingOf path fuel) [] [])
    as Hout.
  rewrite Hthrown in Hout.
  destruct (deleteDirectory_loop client options (listingOf path fuel) [] [])
    as [promises result].
  cbn [fst snd] in *. rewrite (Hnone Hret), app_nil_r in Hfst.
  simpl in Hfst, Hleft. subst promises result.
  exists full, leftover. auto.
Qed.

(** X12.  When the listing returns, and the requests sent in the loop
    (those of 1001 keys) are answered, [deleteDirectory] settles: it is
    fulfilled exactly when every request it sent is answered, and is
    rejected only with the failure of the request sent after the loop,
    which holds at most 1000 keys. *)
Theorem deleteDirectory_outcome (path : string) (fuel : nat) :
  let sent := fst (deleteDirectory client options path fuel) in
  let result := snd (deleteDirectory client options path fuel) in
  returns (listingOf path fuel) = true ->
  (forall command,
      In (Dispatched command) sent -> length (Objects command) = 1001 ->
      sendDeleteObjects client command = Answer tt) ->
  (result = Fulfilled tt <->
   forall command, In (Dispatched command) sent ->
                   sendDeleteObjects client command = Answer tt)
  /\ (forall e, result = Rejected e ->
                exists command b,
                  In (Dispatched command) sent
                  /\ length (Objects command) <= 1000
                  /\ sendDeleteObjects client command = Failure b
                  /\ e = Backend b)
  /\ result <> Pending.
Proof.
  intros sent result Hret. subst sent result.
  unfold deleteDirectory. fold (listingOf path fuel).
  pose proof (deleteDirectory_loop_outcome (listingOf path fuel) [] [])
    as Hout.
  assert (Hthrown : thrown (listingOf path fuel) = None).
  { clear -Hret. induction (listingOf path fuel); simpl in *;
      try reflexivity; [now apply IHa | discriminate]. }
  rewrite Hthrown, Hret in Hout.
  destruct (deleteDirectory_loop_shape (listingOf path fuel) [] []
              (Nat.le_0_l _))
    as (full & last & Hfst & Hfull & Hlast & _ & _).
  destruct (deleteDirectory_loop client options (listingOf path fuel) [] [])
    as [promises result].
  cbn [fst snd] in *. subst result. simpl in Hfst.
  destruct (all_outcome promises) as (Hok & Hfail & Hpending).
  assert (Hin : forall command,
             In (Dispatched command) (map Dispatched promises)
             <-> In command promises).
  { intros command. rewrite in_map_iff. split.
    - intros (c & [= ->] & Hc). exact Hc.
    - intros Hc. now exists command. }
  intros Hanswered. repeat split.
  - intros Hall command Hc. apply Hok; [exact Hall | now apply Hin].
  - intros Hall. apply Hok. intros command Hc. apply Hall. now apply Hin.
  - intros e He. destruct (Hfail e He) as (command & b & Hc & Hsend & ->).
    exists command, b. repeat split; [now apply Hin | | exact Hsend].
    rewrite Hfst in Hc. apply in_app_or in Hc. destruct Hc as [Hc | Hc].
    + rewrite Forall_forall in Hfull.
      assert (Hanswer : sendDeleteObjects client command = Answer tt).
      { apply Hanswered; [|now apply Hfull].
        apply Hin. rewrite Hfst. apply in_or_app. now left. }
      congruence.
    + rewrite Forall_forall in Hlast. now apply Hlast.
  - exact Hpending.
Qed.

End DeleteDirectory.


Lemma deleteDirectory_of_nothing_witness :
  let listing :=
    AwsS3FileStorage.listObjects (H := Examples.rootPrefixer)
      Examples.emptyBucket Examples.storage "photos"
      {| AwsS3FileStorage.deep := true;
         AwsS3FileStorage.includeSelf := true;
         AwsS3FileStorage.includePrefixes := false;
         AwsS3FileStorage.maxKeys := None |} 1 in
  AwsS3FileStorage.returns listing = true
  /\ AwsS3FileStorage.yielded listing = []
  /\ AwsS3FileStorage.deleteDirectory (H := Examples.rootPrefixer)
       Examples.emptyBucket Examples.storage "photos" 1
     = ([], AwsS3FileStorage.Fulfilled tt).
Proof.
  split; [reflexivity | split; [reflexivity|]].
  apply (@deleteDirectory_of_nothing Examples.emptyBucket Examples.storage
           Examples.rootPrefixer "photos" 1); reflexivity.
Defined.

Lemma deleteDirectory_when_the_listing_throws_witness :
  let failure :=
    AwsS3FileStorage.Backend (AwsSdk.OtherError "timeout") in
  thrown
    (AwsS3FileStorage.listObjects (H := Examples.rootPrefixer)
       MoreExamples.interrupted Examples.storage "dir"
       {| AwsS3FileStorage.deep := true;
          AwsS3FileStorage.includeSelf := true;
          AwsS3FileStorage.includePrefixes := false;
          AwsS3FileStorage.maxKeys := None |} 2) = Some failure
  /\ (forall command,
        AwsSdk.sendDeleteObjects MoreExamples.interrupted command
        = AwsSdk.Answer tt)
  /\ exists full,
      AwsS3FileStorage.deleteDirectory (H := Examples.rootPrefixer)
        MoreExamples.interrupted Examples.storage "dir" 2
      = (map AwsS3FileStorage.Dispatched full, AwsS3FileStorage.Rejected failure)
      /\ Forall (fun command => length (AwsSdk.Objects command) = 1001) full.
Proof.
  split; [vm_compute; reflexivity | split; [reflexivity|]].
  destruct (@deleteDirectory_when_the_listing_throws
              MoreExamples.interrupted Examples.storage Examples.rootPrefixer
              "dir" 2 (AwsS3FileStorage.Backend (AwsSdk.OtherError "timeout")))
    as (full & leftover & Hresult & Hfull & _);
    [vm_compute; reflexivity | reflexivity |].
  exists full. auto.
Defined.

(** There, 1002 keys are listed and one request of 1001 is sent: the
    last key listed is in none. *)
Example deleteDirectory_interrupted :
  exists command,
    fst (AwsS3FileStorage.deleteDirectory (H := Examples.rootPrefixer)
           MoreExamples.interrupted Examples.storage "dir" 2)
    = [AwsS3FileStorage.Dispatched command]
    /\ length (AwsSdk.Objects command) = 1001
    /\ ~ In {| AwsSdk.id_Key := Some "dir/1001" |} (AwsSdk.Objects command).
Proof.
  eexists. split; [vm_compute; reflexivity | split; [vm_compute; reflexivity|]].
  intros Hin. apply in_map with (f := AwsSdk.id_Key) in Hin.
  revert Hin. vm_compute. intuition discriminate.
Qed.

Lemma deleteDirectory_outcome_witness :
  AwsS3FileStorage.returns
    (AwsS3FileStorage.listObjects (H := Examples.rootPrefixer)
       Examples.crowded Examples.storage "dir"
       {| AwsS3FileStorage.deep := true;
          AwsS3FileStorage.includeSelf := true;
          AwsS3FileStorage.includePrefixes := false;
          AwsS3FileStorage.maxKeys := None |} 1) = true
  /\ (forall command,
        AwsSdk.sendDeleteObjects Examples.crowded command = AwsSdk.Answer tt)
  /\ snd (AwsS3FileStorage.deleteDirectory (H := Examples.rootPrefixer)
            Examples.crowded Examples.storage "dir" 1)
     <> AwsS3FileStorage.Pending.
Proof.
  split; [vm_compute; reflexivity | split; [reflexivity|]].
  apply (@deleteDirectory_outcome Examples.crowded Examples.storage
           Examples.rootPrefixer "dir" 1);
    [vm_compute; reflexivity | reflexivity].
Defined.

(** ** listObjects: the cap on the items collected *)

Section ListingCap.
Import FileStorage AwsSdk AwsS3FileStorage.
Context (client : S3Client) (options : AwsS3FileStorageOptions).
Context `{PathPrefixer}.

Lemma filter_no_longer {A : Type} (test : A -> bool) (l : list A) :
  length (filter test l) <= length l.
Proof.
  induction l as [|x l IH]; simpl; [lia|].
  destruct (test x); simpl; lia.
Qed.

(** The common prefixes and objects on a page. *)
Let pageSize (response : ListObjectsV2Output) : nat :=
  length (Js.nullish (CommonPrefixes response) [])
  + length (Js.nullish (Contents response) []).

Lemma listObjects_loop_cap (prefix_ : string) (opts : ListOptions) (m : Z) :
  maxKeys opts = Some m ->
  (forall request response,
      sendListObjectsV2 client request = Answer response ->
      MaxKeys request = Some m ->
      (Z.of_nat (pageSize response) <= m)%Z) ->
  forall fuel collected continue token,
    (0 <= collected)%Z ->
    (Z.of_nat (length (yielded (listObjects_loop client options prefix_ opts
                                  fuel collected continue token)))
     <= if (collected <? m)%Z then m - 1 - collected + m else 0)%Z.
Proof.
  intros Hmax Hpages.
  assert (Hbound : forall collected,
             (0 <= collected)%Z ->
             (0 <= if (collected <? m)%Z then m - 1 - collected + m else 0)%Z).
  { intros collected Hc. destruct (Z.ltb_spec collected m); lia. }
  induction fuel as [|fuel IH]; intros collected continue token Hc;
    cbn [listObjects_loop]; rewrite Hmax.
  - destruct (continue && _); simpl; now apply Hbound.
  - destruct (continue && (collected <? m)%Z) eqn:Hcond;
      [|simpl; now apply Hbound].
    apply andb_true_iff in Hcond. destruct Hcond as [_ Hlt]. rewrite Hlt.
    apply Z.ltb_lt in Hlt.
    match goal with
    | |- context [sendListObjectsV2 client ?r] =>
        pose proof (Hpages r) as Hpage;
        destruct (sendListObjectsV2 client r) as [response | b]
    end; [|simpl; lia].
    specialize (Hpage response eq_refl eq_refl). unfold pageSize in Hpage.
    rewrite yielded_yieldAll, length_app.
    match goal with
    | |- context [length (map prefix ?ps ++ map object ?os)] =>
        assert (Hitems :
                  length (map prefix ps ++ map object os)
                  <= length (Js.nullish (CommonPrefixes response) [])
                     + length (Js.nullish (Contents response) []));
        [|set (items := map prefix ps ++ map object os) in *]
    end.
    { rewrite length_app, !length_map.
      apply Nat.add_le_mono; [|apply filter_no_longer].
      destruct (includePrefixes opts); [apply filter_no_longer | simpl; lia]. }
    match goal with
    | |- context [listObjects_loop client options prefix_ opts fuel ?c ?k ?t] =>
        assert (Hc' : (0 <= c)%Z) by lia;
        specialize (IH c k t Hc');
        set (more := listObjects_loop client options prefix_ opts fuel c k t) in *
    end.
    destruct (Z.ltb_spec (collected + Z.of_nat (length items)) m); lia.
Qed.

(** X13.  With a cap of [m] keys, and a service that puts at most [m]
    common prefixes and objects on a page, [listObjects] yields at most
    2 m - 1 items (none when [m] is not positive): it asks for another
    page of up to [m] as long as fewer than [m] are collected, so the
    cap bounds the items collected before the last page, not all of
    them. *)
Theorem listObjects_yields_less_than_twice_the_cap
        (path : string) (opts : ListOptions) (m : Z) (fuel : nat) :
  maxKeys opts = Some m ->
  (forall request response,
      sendListObjectsV2 client request = Answer response ->
      MaxKeys request = Some m ->
      (Z.of_nat (length (Js.nullish (CommonPrefixes response) [])
                 + length (Js.nullish (Contents response) [])) <= m)%Z) ->
  (Z.of_nat (length (yielded (listObjects client options path opts fuel)))
   <= Z.max 0 (2 * m - 1))%Z.
Proof.
  intros Hmax Hpages. unfold listObjects.
  pose proof (listObjects_loop_cap (prefixDirectoryPath path) opts m Hmax
                Hpages fuel 0%Z true None (Z.le_refl 0)) as Hcap.
  destruct (Z.ltb_spec 0 m); lia.
Qed.

(** X14.  [fileExists] and [stat] send the same request: [fileExists] is
    true exactly when [stat] is fulfilled; where it is false, [stat] is
    rejected with a service exception of status 404; where it is
    rejected, [stat] is rejected with the same error. *)
Theorem fileExists_agrees_with_stat (path : string) :
  (fileExists client options path = Fulfilled true <->
   exists entry, stat client options path = Fulfilled entry)
  /\ (fileExists client options path = Fulfilled false ->
      exists name,
        stat client options path
        = Rejected (Backend (S3ServiceException name (Some 404%Z))))
  /\ (forall e, fileExists client options path = Rejected e ->
                stat client options path = Rejected e).
Proof.
  unfold fileExists, stat.
  match goal with
  | |- context [sendHeadObject client ?r] =>
      destruct (sendHeadObject client r) as [response | b]
  end; simpl.
  - repeat split; try discriminate; eauto.
  - destruct (isNotFound b) eqn:Hnf.
    + repeat split; try discriminate.
      * intros [entry Hentry]. discriminate.
      * intros _. destruct b as [name [code|] | message]; try discriminate.
        simpl in Hnf. apply Z.eqb_eq in Hnf. subst code. now exists name.
    + repeat split; try discriminate.
      * intros [entry Hentry]. discriminate.
      * intros e [= <-]. reflexivity.
Qed.

End ListingCap.

Lemma listObjects_yields_less_than_twice_the_cap_witness :
  let client := MoreExamples.shortFirstPage in
  let opts :=
    {| AwsS3FileStorage.deep := true;
       AwsS3FileStorage.includePrefixes := false;
       AwsS3FileStorage.includeSelf := true;
       AwsS3FileStorage.maxKeys := Some 2%Z |} in
  AwsS3FileStorage.maxKeys opts = Some 2%Z
  /\ (forall request response,
        AwsSdk.sendListObjectsV2 client request = AwsSdk.Answer response ->
        AwsSdk.MaxKeys request = Some 2%Z ->
        (Z.of_nat (length (Js.nullish (AwsSdk.CommonPrefixes response) [])
                   + length (Js.nullish (AwsSdk.Contents response) []))
         <= 2)%Z)
  /\ (Z.of_nat (length (AwsS3FileStorage.yielded
                          (AwsS3FileStorage.listObjects
                             (H := Examples.rootPrefixer)
                             client Examples.storage "dir" opts 5)))
      <= Z.max 0 (2 * 2 - 1))%Z.
Proof.
  assert (Hpages :
            forall request response,
              AwsSdk.sendListObjectsV2 MoreExamples.shortFirstPage request
              = AwsSdk.Answer response ->
              AwsSdk.MaxKeys request = Some 2%Z ->
              (Z.of_nat (length (Js.nullish (AwsSdk.CommonPrefixes response) [])
                         + length (Js.nullish (AwsSdk.Contents response) []))
               <= 2)%Z).
  { intros request response. simpl.
    destruct (AwsSdk.ContinuationToken request); intros [= <-] _;
      simpl; lia. }
  intros client opts.
  split; [reflexivity | split; [exact Hpages|]].
  apply (@listObjects_yields_less_than_twice_the_cap
           MoreExamples.shortFirstPage Examples.storage Examples.rootPrefixer
           "dir" opts 2%Z 5 eq_refl Hpages).
Defined.

(** The bound is reached: with a cap of 2 that service gets three items
    listed, and is asked for no third page. *)
Example listObjects_collects_three_under_a_cap_of_two :
  AwsS3FileStorage.listObjects (H := Examples.rootPrefixer)
    MoreExamples.shortFirstPage Examples.storage "dir"
    {| AwsS3FileStorage.deep := true;
       AwsS3FileStorage.includePrefixes := false;
       AwsS3FileStorage.includeSelf := true;
       AwsS3FileStorage.maxKeys := Some 2%Z |} 2
  = AwsS3FileStorage.Yield
      (AwsS3FileStorage.object (Examples.objectNamed "dir/a"))
      (AwsS3FileStorage.Yield
         (AwsS3FileStorage.object (Examples.objectNamed "dir/b"))
         (AwsS3FileStorage.Yield
            (AwsS3FileStorage.object (Examples.objectNamed "dir/c"))
            AwsS3FileStorage.Return)).
Proof. reflexivity. Qed.

(** ** publicUrl and temporaryUrl *)

Section Replace.
Import JsString.

Lemma string_app_assoc (a b c : string) :
  ((a ++ b) ++ c)%string = (a ++ b ++ c)%string.
Proof. induction a as [|x a IH]; simpl; [reflexivity | now rewrite IH]. Qed.

Lemma string_app_nil_r (a : string) : (a ++ EmptyString)%string = a.
Proof. induction a as [|x a IH]; simpl; [reflexivity | now rewrite IH]. Qed.

Lemma anyChar_app (test : ascii -> bool) (a b : string) :
  anyChar test (a ++ b)%string = anyChar test a || anyChar test b.
Proof.
  induction a as [|x a IH]; simpl; [reflexivity|].
  now rewrite IH, orb_assoc.
Qed.

(** A replacement without a dollar is put in as it is. *)
Lemma substitute_plain (replacement matched before after : string) :
  hasChar "$" replacement = false ->
  substitute replacement matched before after = replacement.
Proof.
  unfold hasChar.
  induction replacement as [|c rest IH]; cbn [anyChar substitute];
    [reflexivity|].
  intros Hno. apply orb_false_iff in Hno. destruct Hno as [Hc Hrest].
  rewrite Ascii.eqb_sym in Hc. rewrite Hc. now rewrite (IH Hrest).
Qed.

(** Where the pattern stands at the front, it is replaced there. *)
Lemma replaceFrom_here (before s pattern replacement after : string) :
  S3Listing.afterPrefix pattern s = Some after ->
  replaceFrom before s pattern replacement
  = (substitute replacement pattern before after ++ after)%string.
Proof. intros Hhere. destruct s; simpl; now rewrite Hhere. Qed.

(** Text without the first character of the pattern is passed over. *)
Lemma replaceFrom_skip (c0 : ascii) (tail pre : string) :
  hasChar c0 pre = false ->
  forall before s replacement,
    replaceFrom before (pre ++ s)%string (String c0 tail) replacement
    = (pre ++ replaceFrom (before ++ pre)%string s (String c0 tail)
                          replacement)%string.
Proof.
  unfold hasChar.
  induction pre as [|c pre IH]; cbn [anyChar append];
    intros Hno before s replacement.
  - now rewrite string_app_nil_r.
  - apply orb_false_iff in Hno. destruct Hno as [Hc Hpre].
    cbn [replaceFrom S3Listing.afterPrefix]. rewrite Hc.
    rewrite (IH Hpre), string_app_assoc. reflexivity.
Qed.

Lemma afterPrefix_app (p s : string) :
  S3Listing.afterPrefix p (p ++ s)%string = Some s.
Proof.
  induction p as [|c p IH]; simpl; [reflexivity|].
  now rewrite Ascii.eqb_refl.
Qed.

(** The default template with its two placeholders filled in, for a
    subdomain without a dollar or an opening brace and a path without a
    dollar. *)
Lemma default_template_filled (subdomain uri : string) :
  hasChar "$" subdomain = false ->
  hasChar "{" subdomain = false ->
  hasChar "$" uri = false ->
  replace (replace "https://{subdomain}.amazonaws.com/{uri}"
                   "{subdomain}" subdomain)
          "{uri}" uri
  = ("https://" ++ subdomain ++ ".amazonaws.com/" ++ uri)%string.
Proof.
  intros Hdollar Hbrace Huri. unfold replace.
  change "https://{subdomain}.amazonaws.com/{uri}"
    with ("https://" ++ "{subdomain}" ++ ".amazonaws.com/{uri}")%string.
  rewrite (replaceFrom_skip "{" "subdomain}" "https://" eq_refl).
  rewrite (replaceFrom_here _ _ _ _ _ (afterPrefix_app _ _)).
  rewrite (substitute_plain _ _ _ _ Hdollar).
  change ".amazonaws.com/{uri}" with (".amazonaws.com/" ++ "{uri}")%string.
  rewrite <- !string_app_assoc.
  rewrite (replaceFrom_skip "{" "uri}"
             (("https://" ++ subdomain) ++ ".amazonaws.com/")%string).
  - rewrite (replaceFrom_here _ "{uri}" "{uri}" _ EmptyString eq_refl).
    rewrite (substitute_plain _ _ _ _ Huri).
    now rewrite string_app_nil_r, !string_app_assoc.
  - unfold hasChar in *. rewrite !anyChar_app, Hbrace. reflexivity.
Qed.

End Replace.

Section PublicUrl.
Import FileStorage AwsSdk AwsS3FileStorage AwsS3Urls JsString.

(** The default template with the subdomain filled in, and the path
    read as a replacement for the second placeholder. *)
Lemma default_template_substituted (subdomain uri : string) :
  hasChar "$" subdomain = false ->
  hasChar "{" subdomain = false ->
  replace (replace "https://{subdomain}.amazonaws.com/{uri}"
                   "{subdomain}" subdomain)
          "{uri}" uri
  = ("https://" ++ subdomain ++ ".amazonaws.com/"
     ++ substitute uri "{uri}"
          ("https://" ++ subdomain ++ ".amazonaws.com/") EmptyString)%string.
Proof.
  intros Hdollar Hbrace. unfold replace.
  change "https://{subdomain}.amazonaws.com/{uri}"
    with ("https://" ++ "{subdomain}" ++ ".amazonaws.com/{uri}")%string.
  rewrite (replaceFrom_skip "{" "subdomain}" "https://" eq_refl).
  rewrite (replaceFrom_here _ _ _ _ _ (afterPrefix_app _ _)).
  rewrite (substitute_plain _ _ _ _ Hdollar).
  change ".amazonaws.com/{uri}" with (".amazonaws.com/" ++ "{uri}")%string.
  rewrite <- !string_app_assoc.
  rewrite (replaceFrom_skip "{" "uri}"
             (("https://" ++ subdomain) ++ ".amazonaws.com/")%string).
  - rewrite (replaceFrom_here _ "{uri}" "{uri}" _ EmptyString eq_refl).
    now rewrite string_app_nil_r, !string_app_assoc.
  - unfold hasChar in *. rewrite !anyChar_app, Hbrace. reflexivity.
Qed.

Lemma substitute_app_plain (a rest matched before after : string) :
  hasChar "$" a = false ->
  substitute (a ++ rest) matched before after
  = (a ++ substitute rest matched before after)%string.
Proof.
  unfold hasChar.
  induction a as [|c a IH]; cbn [anyChar append]; [reflexivity|].
  intros Hno. apply orb_false_iff in Hno. destruct Hno as [Hc Ha].
  cbn [substitute]. rewrite Ascii.eqb_sym in Hc. rewrite Hc.
  now rewrite (IH Ha).
Qed.

(** X15.  Virtual-hosted style (forcePathStyle is not true) with the
    default base URL: for a bucket name without a dollar or an opening
    brace and a path without a dollar, the public URL is
    https://BUCKET.s3.amazonaws.com/PATH. *)
Theorem publicUrl_virtual_hosted_style
        (path b : string) (options : AwsPublicUrlOptions) :
  get (baseUrl options) = None ->
  get (forcePathStyle options) <> Some true ->
  get (url_bucket options) = Some b ->
  hasChar "$" b = false ->
  hasChar "{" b = false ->
  hasChar "$" path = false ->
  defaultPublicUrl path options
  = ("https://" ++ b ++ ".s3.amazonaws.com/" ++ path)%string.
Proof.
  intros Hbase Hstyle Hbucket Hdollar Hbrace Hpath.
  unfold defaultPublicUrl. rewrite Hbase, Hbucket.
  assert (Hvirtual : match get (forcePathStyle options) with
                     | Some true => true
                     | _ => false
                     end = false).
  { destruct (get (forcePathStyle options)) as [[|]|]; congruence. }
  rewrite Hvirtual. cbn [negb Js.nullish show].
  rewrite default_template_filled;
    [now rewrite !string_app_assoc | | | exact Hpath];
    unfold hasChar in *; rewrite anyChar_app;
    [rewrite Hdollar | rewrite Hbrace]; reflexivity.
Qed.

(** X16.  Path style (forcePathStyle is true) with the default base
    URL, for a bucket name and a path without a dollar: the public URL
    is https://s3.amazonaws.com/BUCKET/PATH when no region is given, and
    https://s3-REGION.amazonaws.com/BUCKET/PATH for a region without a
    dollar or an opening brace. *)
Theorem publicUrl_path_style
        (path b : string) (options : AwsPublicUrlOptions) :
  get (baseUrl options) = None ->
  get (forcePathStyle options) = Some true ->
  get (url_bucket options) = Some b ->
  hasChar "$" b = false ->
  hasChar "$" path = false ->
  (get (region options) = None ->
   defaultPublicUrl path options
   = ("https://s3.amazonaws.com/" ++ b ++ "/" ++ path)%string)
  /\ (forall r,
        get (region options) = Some r ->
        hasChar "$" r = false -> hasChar "{" r = false ->
        defaultPublicUrl path options
        = ("https://s3-" ++ r ++ ".amazonaws.com/" ++ b ++ "/" ++ path)%string).
Proof.
  intros Hbase Hstyle Hbucket Hdollar Hpath.
  assert (Huri : hasChar "$" (b ++ "/" ++ path)%string = false).
  { unfold hasChar in *. rewrite !anyChar_app, Hdollar, Hpath. reflexivity. }
  unfold defaultPublicUrl. rewrite Hbase, Hstyle, Hbucket.
  cbn [negb Js.nullish show]. split.
  - intros ->. rewrite default_template_filled; auto.
  - intros r -> Hr Hbrace.
    rewrite default_template_filled;
      [now rewrite !string_app_assoc | | | exact Huri];
      unfold hasChar in *; rewrite anyChar_app;
      [rewrite Hr | rewrite Hbrace]; reflexivity.
Qed.

(** X17.  The path is not copied into the URL, it is read as the
    replacement of [replace]: in the virtual-hosted URL of the default
    template, two dollars in the path come out as one, and a dollar and
    an ampersand come out as the placeholder. *)
Theorem publicUrl_reads_the_path_as_a_replacement
        (a c b : string) (options : AwsPublicUrlOptions) :
  get (baseUrl options) = None ->
  get (forcePathStyle options) <> Some true ->
  get (url_bucket options) = Some b ->
  hasChar "$" b = false ->
  hasChar "{" b = false ->
  hasChar "$" a = false ->
  hasChar "$" c = false ->
  defaultPublicUrl (a ++ "$$" ++ c) options
  = ("https://" ++ b ++ ".s3.amazonaws.com/" ++ a ++ "$" ++ c)%string
  /\ defaultPublicUrl (a ++ "$&" ++ c) options
     = ("https://" ++ b ++ ".s3.amazonaws.com/" ++ a ++ "{uri}" ++ c)%string.
Proof.
  intros Hbase Hstyle Hbucket Hdollar Hbrace Ha Hc.
  unfold defaultPublicUrl. rewrite Hbase, Hbucket.
  assert (Hvirtual : match get (forcePathStyle options) with
                     | Some true => true
                     | _ => false
                     end = false).
  { destruct (get (forcePathStyle options)) as [[|]|]; congruence. }
  rewrite Hvirtual. cbn [negb Js.nullish show].
  assert (Hsub : hasChar "$" (b ++ ".s3")%string = false
                 /\ hasChar "{" (b ++ ".s3")%string = false).
  { unfold hasChar in *. rewrite !anyChar_app, Hdollar, Hbrace. auto. }
  destruct Hsub as [Hsub1 Hsub2].
  rewrite !default_template_substituted by assumption.
  rewrite !(substitute_app_plain a) by exact Ha.
  cbn [append substitute Ascii.eqb Bool.eqb].
  rewrite !(substitute_plain c) by exact Hc.
  rewrite !string_app_assoc. split; reflexivity.
Qed.

(** X18.  What the adapter is configured with wins over what a call
    passes: two calls of [publicUrl] whose options differ only in
    properties that the configured [publicUrlOptions] hold give the same
    URL, whatever the generator. *)
Theorem publicUrl_configuration_wins
        (options : AwsS3FileStorageOptions)
        `{PathPrefixer} `{AwsPublicUrlGenerator}
        (configured call call' : AwsPublicUrlOptions) (path : string) :
  (url_bucket configured = Absent -> url_bucket call = url_bucket call') ->
  (region configured = Absent -> region call = region call') ->
  (forcePathStyle configured = Absent ->
   forcePathStyle call = forcePathStyle call') ->
  (baseUrl configured = Absent -> baseUrl call = baseUrl call') ->
  publicUrl options (Some configured) path call
  = publicUrl options (Some configured) path call'.
Proof.
  intros Hb Hr Hf Hu. unfold publicUrl, spreadOptions. cbn.
  f_equal. f_equal.
  - destruct (url_bucket configured); [now rewrite Hb | reflexivity].
  - destruct (region configured); [now rewrite Hr | reflexivity].
  - destruct (forcePathStyle configured); [now rewrite Hf | reflexivity].
  - destruct (baseUrl configured); [now rewrite Hu | reflexivity].
Qed.

(** X19.  [temporaryUrl] asks the signer for whole seconds, rounded
    down: the lifetime asked for never goes beyond the expiry and falls
    short of it by less than a second; for an expiry that is past it is
    negative, and is handed to the signer all the same. *)
Theorem temporaryUrl_lifetime
        (options : AwsS3FileStorageOptions) `{PathPrefixer}
        (ExpiresAt : Type) (normalize : ExpiresAt -> Z)
        (getSignedUrl : GetObjectCommandInput -> Z -> Response string)
        (now : Z) (path : string) (expiresAt : ExpiresAt) :
  exists seconds,
    temporaryUrl options ExpiresAt normalize getSignedUrl now path expiresAt
    = send (getSignedUrl {| get_Bucket := bucket options;
                            get_Key := prefixFilePath path |} seconds)
    /\ (now + 1000 * seconds <= normalize expiresAt
        < now + 1000 * seconds + 1000)%Z
    /\ (normalize expiresAt < now -> seconds < 0)%Z.
Proof.
  exists (expiresIn now (normalize expiresAt)).
  unfold temporaryUrl, expiresIn. split; [reflexivity|].
  pose proof (Z.div_mod (normalize expiresAt - now) 1000 ltac:(lia)) as Hdiv.
  pose proof (Z.mod_pos_bound (normalize expiresAt - now) 1000 ltac:(lia))
    as Hmod.
  split; [lia|]. intros Hpast.
  apply Z.div_lt_upper_bound; lia.
Qed.

End PublicUrl.

Lemma publicUrl_virtual_hosted_style_witness :
  AwsS3Urls.get (AwsS3Urls.baseUrl MoreExamples.bucketOnly) = None
  /\ AwsS3Urls.get (AwsS3Urls.forcePathStyle MoreExamples.bucketOnly)
     <> Some true
  /\ AwsS3Urls.defaultPublicUrl "public.txt" MoreExamples.bucketOnly
     = "https://flysystem-check.s3.amazonaws.com/public.txt".
Proof.
  split; [reflexivity | split; [discriminate|]].
  apply (publicUrl_virtual_hosted_style "public.txt" "flysystem-check"
           MoreExamples.bucketOnly);
    try reflexivity. discriminate.
Defined.

Lemma publicUrl_path_style_witness :
  AwsS3Urls.get (AwsS3Urls.forcePathStyle
                   (MoreExamples.pathStyleIn (Some "eu-west-1"))) = Some true
  /\ AwsS3Urls.defaultPublicUrl "public.txt"
       (MoreExamples.pathStyleIn (Some "eu-west-1"))
     = "https://s3-eu-west-1.amazonaws.com/flysystem-check/public.txt".
Proof.
  split; [reflexivity|].
  destruct (publicUrl_path_style "public.txt" "flysystem-check"
              (MoreExamples.pathStyleIn (Some "eu-west-1"))
              eq_refl eq_refl eq_refl eq_refl eq_refl) as [_ Hregion].
  apply (Hregion "eu-west-1"); reflexivity.
Defined.

Lemma publicUrl_reads_the_path_as_a_replacement_witness :
  JsString.hasChar "$" "price" = false
  /\ AwsS3Urls.defaultPublicUrl "price$$.txt" MoreExamples.bucketOnly
     = "https://flysystem-check.s3.amazonaws.com/price$.txt".
Proof.
  split; [reflexivity|].
  destruct (publicUrl_reads_the_path_as_a_replacement
              "price" ".txt" "flysystem-check" MoreExamples.bucketOnly
              eq_refl ltac:(discriminate) eq_refl eq_refl eq_refl
              eq_refl eq_refl)
    as [Hdollars _].
  exact Hdollars.
Defined.

Lemma publicUrl_configuration_wins_witness :
  (AwsS3Urls.baseUrl MoreExamples.cdn = AwsS3Urls.Absent ->
   AwsS3Urls.baseUrl MoreExamples.bucketOnly
   = AwsS3Urls.baseUrl (MoreExamples.pathStyleIn None))
  /\ @AwsS3Urls.publicUrl Examples.storage Examples.rootPrefixer
       AwsS3Urls.DefaultAwsPublicUrlGenerator (Some MoreExamples.cdn)
       "logo.png" MoreExamples.bucketOnly
     = @AwsS3Urls.publicUrl Examples.storage Examples.rootPrefixer
         AwsS3Urls.DefaultAwsPublicUrlGenerator (Some MoreExamples.cdn)
         "logo.png" (MoreExamples.pathStyleIn None).
Proof.
  split; [discriminate|].
  apply (@publicUrl_configuration_wins Examples.storage Examples.rootPrefixer
           AwsS3Urls.DefaultAwsPublicUrlGenerator);
    discriminate.
Defined.

(** With that configuration every call gives the URL of the network. *)
Example publicUrl_through_the_cdn :
  @AwsS3Urls.publicUrl Examples.storage Examples.rootPrefixer
    AwsS3Urls.DefaultAwsPublicUrlGenerator (Some MoreExamples.cdn)
    "logo.png" (MoreExamples.pathStyleIn None)
  = AwsS3FileStorage.Fulfilled "https://cdn.example.com/logo.png".
Proof. reflexivity. Qed.

(** A call that passes a bucket that is undefined gets the word
    into the URL. *)
Example publicUrl_of_an_undefined_bucket :
  @AwsS3Urls.publicUrl Examples.storage Examples.rootPrefixer
    AwsS3Urls.DefaultAwsPublicUrlGenerator None "logo.png"
    {| AwsS3Urls.url_bucket := AwsS3Urls.Present None;
       AwsS3Urls.region := AwsS3Urls.Absent;
       AwsS3Urls.forcePathStyle := AwsS3Urls.Absent;
       AwsS3Urls.baseUrl := AwsS3Urls.Absent |}
  = AwsS3FileStorage.Fulfilled "https://undefined.s3.amazonaws.com/logo.png".
Proof. reflexivity. Qed.

(** ** write, createDirectory and changeVisibility *)

Section WriteProperties.
Import StreamMimeType FileStorage AwsSdk AwsS3FileStorage AwsS3Urls AwsS3Writes.
Context (writes : S3Writes) (options : AwsS3FileStorageOptions).
Context `{PathPrefixer} `{Visibility} `{MimeLibraries}.
Variable putObjectOptions : option PutObjectOptions.

(** What [upload] starts, property by property. *)
Lemma upload_params (key : string) (body : UploadBody)
      (callOptions : PutObjectOptions) :
  exists params,
    upload writes options putObjectOptions key body callOptions
    = ([params], _ <- send (sendUpload writes params) ;; Fulfilled tt)
    /\ put_Bucket params = bucket options
    /\ put_Key params = key
    /\ put_rest params
       = let assigned := assign putObjectOptions callOptions in
         {| put_Body := spread (Present (Some body)) (put_Body assigned);
            put_ACL := put_ACL assigned;
            put_ContentType := put_ContentType assigned;
            put_ContentLength := put_ContentLength assigned;
            put_others := put_others assigned |}.
Proof. unfold upload. eexists. repeat split. Qed.

(** A property that the call sets is what [assign] keeps. *)
Lemma assign_present {A : Type}
      (field : PutObjectOptions -> Property A)
      (callOptions : PutObjectOptions) (value : option A) :
  field callOptions = Present value ->
  (forall a b, field (assign (Some a) b) = spread (field a) (field b)) ->
  field (assign putObjectOptions callOptions) = Present value.
Proof.
  intros Hcall Hfield. destruct putObjectOptions as [configured|].
  - rewrite Hfield, Hcall. reflexivity.
  - exact Hcall.
Qed.

(** X20.  Without a MIME type in its options, and for a stream that
    ends or carries 4100 bytes, [write] goes by what [resolveMimeType]
    does for the stream and the path.  When that fails, [write] is
    rejected with its error and starts no upload.  When it returns a
    type and a stream, [write] starts one upload, under the key of the
    path: its content type is that type, its ACL the one of the
    visibility, its length the size of the options, and its body (no
    body being configured) that stream, which carries the bytes of the
    stream given. *)
Theorem write_uploads_the_stream_with_its_sniffed_type
        (path : string) (stream : Readable) (opts : WriteOptions)
        (acl : option string) :
  write_mimeType opts = None ->
  ends stream = true \/ 4100 <= length (contents stream) ->
  aclFor (write_visibility opts) = Returned acl ->
  match resolveMimeType path stream None with
  | Resolved (mimeType, body) =>
      exists params,
        write writes options putObjectOptions path stream opts
        = ([params], _ <- send (sendUpload writes params) ;; Fulfilled tt)
        /\ contents body = contents stream
        /\ ends body = ends stream
        /\ put_Key params = prefixFilePath path
        /\ get (put_ContentType (put_rest params)) = mimeType
        /\ get (put_ACL (put_rest params)) = acl
        /\ get (put_ContentLength (put_rest params)) = write_size opts
        /\ ((forall configured, putObjectOptions = Some configured ->
                                put_Body configured = Absent) ->
            get (put_Body (put_rest params)) = Some (StreamBody body))
  | Failed e =>
      write writes options putObjectOptions path stream opts
      = ([], Rejected (Library e))
  | Unsettled => False
  end.
Proof.
  intros Hmime Hsettles Hacl. unfold write. rewrite Hmime.
  assert (Hresolved :
            match resolveMimeType path stream None with
            | Resolved (_, body) => body = replayed stream
            | Failed _ => True
            | Unsettled => False
            end).
  { rewrite (resolveMimeType_settled path stream None Hsettles).
    destruct (fileTypeFromBuffer _) as [[detected|] | e]; auto. }
  destruct (resolveMimeType path stream None) as [[mimeType body] | e |];
    [subst body | reflexivity | exact Hresolved].
  rewrite Hacl.
  destruct (upload_params (prefixFilePath path) (StreamBody (replayed stream))
              {| put_Body := Absent; put_ACL := Present acl;
                 put_ContentType := Present mimeType;
                 put_ContentLength := Present (write_size opts);
                 put_others := [] |})
    as (params & Hupload & _ & Hkey & Hrest).
  exists params. rewrite Hupload, Hrest. cbn zeta.
  cbn [put_ContentType put_ACL put_ContentLength put_Body].
  destruct (contents_replayed stream) as [Hcontents Hends].
  repeat split; try assumption.
  - now rewrite (assign_present put_ContentType _ mimeType).
  - now rewrite (assign_present put_ACL _ acl).
  - now rewrite (assign_present put_ContentLength _ (write_size opts)).
  - intros Hnobody. destruct putObjectOptions as [configured|]; simpl;
      [rewrite (Hnobody configured eq_refl)|]; reflexivity.
Qed.

(** X21.  A stream that stalls before it has carried 4100 bytes:
    without a MIME type in the options, [write] never settles and
    uploads nothing; with one, it does not look at the stream and starts
    the upload of it. *)
Theorem write_of_a_stalled_stream
        (path : string) (stream : Readable) (opts : WriteOptions) :
  ends stream = false ->
  length (contents stream) < 4100 ->
  (write_mimeType opts = None ->
   write writes options putObjectOptions path stream opts = ([], Pending))
  /\ (forall mimeType acl,
        write_mimeType opts = Some mimeType ->
        aclFor (write_visibility opts) = Returned acl ->
        (forall configured, putObjectOptions = Some configured ->
                            put_Body configured = Absent) ->
        exists params,
          fst (write writes options putObjectOptions path stream opts)
          = [params]
          /\ get (put_Body (put_rest params)) = Some (StreamBody stream)
          /\ get (put_ContentType (put_rest params)) = Some mimeType).
Proof.
  intros Hends Hshort. unfold write. split.
  - intros ->. unfold resolveMimeType.
    rewrite streamHead_spec, Hends, reaches_total by lia.
    unfold contents in Hshort. apply Nat.leb_gt in Hshort.
    rewrite concat_passedThrough, Nat.add_0_l, Hshort. reflexivity.
  - intros mimeType acl -> -> Hnobody.
    destruct (upload_params (prefixFilePath path) (StreamBody stream)
                {| put_Body := Absent; put_ACL := Present acl;
                   put_ContentType := Present (Some mimeType);
                   put_ContentLength := Present (write_size opts);
                   put_others := [] |})
      as (params & Hupload & _ & _ & Hrest).
    exists params. rewrite Hupload, Hrest. cbn zeta.
    cbn [fst put_ContentType put_Body]. repeat split.
    + destruct putObjectOptions as [configured|]; simpl;
        [rewrite (Hnobody configured eq_refl)|]; reflexivity.
    + now rewrite (assign_present put_ContentType _ (Some mimeType)).
Qed.

(** The ACL of a visibility that is not recognised: none, the call
    throws. *)
Lemma aclFor_unrecognized (v : string) :
  v <> EmptyString -> v <> PUBLIC -> v <> PRIVATE ->
  aclFor (Some v)
  = Thrown (Error ("Unrecognized visibility provided; " ++ v)%string)
  /\ visibilityToAcl v
     = Thrown (Error ("Unrecognized visibility provided; " ++ v)%string).
Proof.
  intros Hne Hpublic Hprivate.
  assert (Hthrown : visibilityToAcl v
                    = Thrown (Error ("Unrecognized visibility provided; "
                                     ++ v)%string)).
  { unfold visibilityToAcl. apply String.eqb_neq in Hpublic, Hprivate.
    now rewrite Hpublic, Hprivate. }
  split; [|exact Hthrown]. unfold aclFor, Js.truthy.
  apply String.eqb_neq in Hne. now rewrite Hne, Hthrown.
Qed.

(** X22.  With a visibility that is neither PUBLIC nor PRIVATE (nor
    empty), nothing is sent.  [write] starts no upload: it is rejected
    with the error that names the visibility, but for a call without a
    MIME type whose sniffing fails (it is rejected with that failure) or
    never settles (nor does [write]).  [createDirectory] and
    [changeVisibility] are rejected with the error that names the
    visibility, before any request. *)
Theorem unrecognized_visibility_sends_nothing (v : string) :
  v <> EmptyString -> v <> PUBLIC -> v <> PRIVATE ->
  let unrecognized :=
    Error ("Unrecognized visibility provided; " ++ v)%string in
  (forall path stream opts,
      write_visibility opts = Some v ->
      write writes options putObjectOptions path stream opts
      = ([],
         match write_mimeType opts with
         | Some _ => Rejected unrecognized
         | None =>
             match resolveMimeType path stream None with
             | Resolved _ => Rejected unrecognized
             | Failed e => Rejected (Library e)
             | Unsettled => Pending
             end
         end))
  /\ (forall path,
        createDirectory writes options putObjectOptions path
          {| directoryVisibility := Some v |}
        = ([], Rejected unrecognized))
  /\ (forall path,
        changeVisibility writes options path v
        = ([], Rejected unrecognized)).
Proof.
  intros Hne Hpublic Hprivate unrecognized.
  destruct (aclFor_unrecognized v Hne Hpublic Hprivate) as [Hacl Hthrown].
  split; [|split].
  - intros path stream opts Hv. unfold write. rewrite Hv.
    destruct (write_mimeType opts) as [mimeType|]; [now rewrite Hacl|].
    destruct (resolveMimeType path stream None) as [[mimeType body] | e |];
      [now rewrite Hacl | reflexivity | reflexivity].
  - intros path. unfold createDirectory. cbn [directoryVisibility].
    now rewrite Hacl.
  - intros path. unfold changeVisibility. now rewrite Hthrown.
Qed.

(** X23.  What a call sets wins over the [putObjectOptions] the adapter
    is configured with, also where it sets a property to undefined:
    every upload of [write] has the ACL of the call's visibility (none
    without a visibility, whatever ACL is configured), the size of the
    call as its length and a content type of the call's; only the other
    configured properties reach it.  An upload of [createDirectory] has
    the configured content type and length, and an empty text as its
    body unless a body is configured. *)
Theorem upload_options_of_the_call_win (configured : PutObjectOptions) :
  (forall path stream opts params,
      In params (fst (write writes options (Some configured)
                         path stream opts)) ->
      (write_visibility opts = None ->
       put_ACL (put_rest params) = Present None)
      /\ put_ContentLength (put_rest params) = Present (write_size opts)
      /\ (exists mimeType,
             put_ContentType (put_rest params) = Present mimeType)
      /\ put_others (put_rest params) = put_others configured)
  /\ (forall path opts params,
        In params (fst (createDirectory writes options (Some configured)
                          path opts)) ->
        put_ContentType (put_rest params) = put_ContentType configured
        /\ put_ContentLength (put_rest params) = put_ContentLength configured
        /\ put_Key params = prefixDirectoryPath path
        /\ (put_Body configured = Absent ->
            get (put_Body (put_rest params)) = Some EmptyText)).
Proof.
  split.
  - intros path stream opts params. unfold write.
    destruct (match write_mimeType opts with
              | Some _ => _
              | None => _
              end) as [[mimeType contents'] | failure |];
      [|simpl; tauto ..].
    destruct (aclFor (write_visibility opts)) as [acl|e] eqn:Hacl;
      [|simpl; tauto].
    unfold upload. cbn [fst In]. intros [<- | []].
    cbn. repeat split; eauto.
    intros Hnone. rewrite Hnone in Hacl. simpl in Hacl.
    injection Hacl as <-. reflexivity.
  - intros path opts params. unfold createDirectory.
    destruct (aclFor (directoryVisibility opts)) as [acl|e];
      [|simpl; tauto].
    unfold upload. cbn [fst In]. intros [<- | []].
    cbn. repeat split. intros ->. reflexivity.
Qed.

(** X24.  [changeVisibility] and [write] agree: for a visibility that
    is not empty, the command of [changeVisibility] has the key and the
    ACL of the upload that [write] starts for that path and
    visibility. *)
Theorem changeVisibility_sends_the_acl_of_write
        (path v : string) (stream : Readable) (opts : WriteOptions)
        (params : PutObjectCommandInput) :
  v <> EmptyString ->
  write_visibility opts = Some v ->
  In params (fst (write writes options putObjectOptions path stream opts)) ->
  exists command,
    changeVisibility writes options path v
    = ([command], _ <- send (sendPutObjectAcl writes command) ;; Fulfilled tt)
    /\ putacl_Key command = put_Key params
    /\ get (put_ACL (put_rest params)) = Some (putacl_ACL command).
Proof.
  intros Hne Hv. unfold write, changeVisibility. rewrite Hv.
  destruct (match write_mimeType opts with
            | Some _ => _
            | None => _
            end) as [[mimeType contents'] | failure |];
    [|simpl; tauto ..].
  unfold aclFor, Js.truthy. apply String.eqb_neq in Hne. rewrite Hne.
  cbn [negb].
  destruct (visibilityToAcl v) as [acl|e]; [|simpl; tauto].
  unfold upload. cbn [fst In]. intros [<- | []].
  eexists. split; [reflexivity|]. cbn [putacl_Key put_Key putacl_ACL put_rest put_ACL].
  split; [reflexivity|].
  destruct putObjectOptions as [configured|]; reflexivity.
Qed.

End WriteProperties.

Lemma write_uploads_the_stream_with_its_sniffed_type_witness :
  let opts :=
    {| AwsS3Writes.write_visibility := None;
       AwsS3Writes.write_mimeType := None;
       AwsS3Writes.write_size := Some 5%Z |} in
  AwsS3Writes.write_mimeType opts = None
  /\ StreamMimeType.ends Examples.textStream = true
  /\ exists params,
      fst (@AwsS3Writes.write MoreExamples.answering Examples.storage
             Examples.rootPrefixer Examples.visibilityEnum Examples.smallTables
             (Some MoreExamples.publicByDefault)
             "notes.txt" Examples.textStream opts) = [params]
      /\ AwsS3Urls.get (AwsS3Writes.put_ContentType (AwsS3Writes.put_rest params))
         = Some "text/plain"
      /\ AwsS3Urls.get (AwsS3Writes.put_ACL (AwsS3Writes.put_rest params)) = None.
Proof.
  intros opts. split; [reflexivity | split; [reflexivity|]].
  pose proof (@write_uploads_the_stream_with_its_sniffed_type
                MoreExamples.answering Examples.storage
                Examples.rootPrefixer Examples.visibilityEnum
                Examples.smallTables (Some MoreExamples.publicByDefault)
                "notes.txt" Examples.textStream opts None
                eq_refl (or_introl eq_refl) eq_refl) as Hwrite.
  assert (Hresolved :
            @StreamMimeType.resolveMimeType Examples.smallTables
              "notes.txt" Examples.textStream None
            = StreamMimeType.Resolved
                (Some "text/plain",
                 StreamMimeType.replayed Examples.textStream))
    by reflexivity.
  rewrite Hresolved in Hwrite.
  destruct Hwrite as (params & Hparams & _ & _ & _ & Htype & Hacl & _).
  exists params. rewrite Hparams. split; [reflexivity|].
  split; [exact Htype | exact Hacl].
Defined.

Lemma write_of_a_stalled_stream_witness :
  let opts :=
    {| AwsS3Writes.write_visibility := None;
       AwsS3Writes.write_mimeType := None;
       AwsS3Writes.write_size := None |} in
  StreamMimeType.ends MoreExamples.stalledStream = false
  /\ length (StreamMimeType.contents MoreExamples.stalledStream) < 4100
  /\ @AwsS3Writes.write MoreExamples.answering Examples.storage
       Examples.rootPrefixer Examples.visibilityEnum Examples.smallTables
       None "notes.txt" MoreExamples.stalledStream opts
     = ([], AwsS3FileStorage.Pending).
Proof.
  intros opts.
  assert (Hshort : length (StreamMimeType.contents MoreExamples.stalledStream)
                   < 4100) by (simpl; lia).
  split; [reflexivity | split; [exact Hshort|]].
  destruct (@write_of_a_stalled_stream
              MoreExamples.answering Examples.storage
              Examples.rootPrefixer Examples.visibilityEnum Examples.smallTables
              None "notes.txt" MoreExamples.stalledStream opts
              eq_refl Hshort) as [Hpending _].
  apply Hpending. reflexivity.
Defined.

Lemma unrecognized_visibility_sends_nothing_witness :
  "protected" <> EmptyString
  /\ "protected" <> @FileStorage.PUBLIC Examples.visibilityEnum
  /\ "protected" <> @FileStorage.PRIVATE Examples.visibilityEnum
  /\ @AwsS3Writes.changeVisibility MoreExamples.answering Examples.storage
       Examples.rootPrefixer Examples.visibilityEnum "notes.txt" "protected"
     = ([], AwsS3FileStorage.Rejected
              (AwsS3FileStorage.Error
                 "Unrecognized visibility provided; protected")).
Proof.
  assert (Hne : "protected" <> EmptyString) by discriminate.
  assert (Hpublic : "protected" <> @FileStorage.PUBLIC Examples.visibilityEnum)
    by discriminate.
  assert (Hprivate : "protected" <> @FileStorage.PRIVATE Examples.visibilityEnum)
    by discriminate.
  split; [exact Hne | split; [exact Hpublic | split; [exact Hprivate|]]].
  destruct (@unrecognized_visibility_sends_nothing
              MoreExamples.answering Examples.storage
              Examples.rootPrefixer Examples.visibilityEnum Examples.smallTables
              None "protected" Hne Hpublic Hprivate)
    as (_ & _ & Hchange).
  apply Hchange.
Defined.

(** A PNG signature written with that visibility and no MIME type: the
    call fails with the failure of the detection. *)
Example write_when_the_detection_fails :
  @AwsS3Writes.write MoreExamples.answering Examples.storage
    Examples.rootPrefixer Examples.visibilityEnum Examples.smallTables
    None "picture.png" Examples.pngStream
    {| AwsS3Writes.write_visibility := Some "protected";
       AwsS3Writes.write_mimeType := None;
       AwsS3Writes.write_size := None |}
  = ([], AwsS3FileStorage.Rejected
           (AwsS3FileStorage.Library {| errorName := "EndOfStreamError" |})).
Proof. reflexivity. Qed.

Lemma changeVisibility_sends_the_acl_of_write_witness :
  let opts :=
    {| AwsS3Writes.write_visibility := Some "public";
       AwsS3Writes.write_mimeType := Some "text/plain";
       AwsS3Writes.write_size := None |} in
  "public" <> EmptyString
  /\ AwsS3Writes.write_visibility opts = Some "public"
  /\ exists command,
      fst (@AwsS3Writes.changeVisibility MoreExamples.answering Examples.storage
             Examples.rootPrefixer Examples.visibilityEnum "notes.txt" "public")
      = [command]
      /\ AwsS3Writes.putacl_ACL command = "public-read".
Proof.
  intros opts.
  assert (Hne : "public" <> EmptyString) by discriminate.
  split; [exact Hne | split; [reflexivity|]].
  pose (params :=
          {| AwsS3Writes.put_Bucket := AwsS3FileStorage.bucket Examples.storage;
             AwsS3Writes.put_Key :=
               @FileStorage.prefixFilePath Examples.rootPrefixer "notes.txt";
             AwsS3Writes.put_rest :=
               {| AwsS3Writes.put_Body :=
                    AwsS3Urls.Present
                      (Some (AwsS3Writes.StreamBody Examples.textStream));
                  AwsS3Writes.put_ACL := AwsS3Urls.Present (Some "public-read");
                  AwsS3Writes.put_ContentType :=
                    AwsS3Urls.Present (Some "text/plain");
                  AwsS3Writes.put_ContentLength := AwsS3Urls.Present None;
                  AwsS3Writes.put_others := [] |} |}).
  destruct (@changeVisibility_sends_the_acl_of_write
              MoreExamples.answering Examples.storage
              Examples.rootPrefixer Examples.visibilityEnum Examples.smallTables
              None "notes.txt" "public" Examples.textStream opts params
              Hne eq_refl (or_introl eq_refl))
    as (command & Hchange & _ & Hacl).
  exists command. rewrite Hchange. split; [reflexivity|].
  simpl in Hacl. injection Hacl as <-. reflexivity.
Defined.
